(** * The MetaMask in-page provider (src/index.js)

    A shallow embedding of [MetamaskInpageProvider]: the module-level flags,
    the state mirror fed by the public-config store, the legacy synchronous
    facade, the access request, the notification relay and the disconnect
    handler.  JavaScript objects the code only passes along are values of a
    small JSON-like type; state is threaded explicitly through a [world]. *)

From Stdlib Require Import ZArith String Ascii List Bool Lia.
From stdpp Require Import base option list gmap strings.

Local Open Scope string_scope.
Local Open Scope list_scope.

(** ** JavaScript values *)

(** Primitive values.  Numbers are the integers of JSON-RPC ids and error
    codes. *)
Inductive scalar :=
| SUndefined
| SNull
| SBool (b : bool)
| SNum (n : Z)
| SStr (s : string).

(** Values with structure: arrays and plain objects (a list of own
    properties, a later binding of a key overriding an earlier one). *)
#[warnings="-register-all"]
Inductive value :=
| VScalar (c : scalar)
| VArr (items : list value)
| VObj (fields : list (string * value)).

Coercion VScalar : scalar >-> value.

Definition undefined : value := VScalar SUndefined.
Definition null : value := VScalar SNull.

#[global] Instance scalar_eq_dec : EqDecision scalar.
Proof. solve_decision. Defined.

(** [a === b] on primitives: equality of values. *)
Definition strict_eq (a b : scalar) : bool := bool_decide (a = b).

(** ToBoolean. *)
Definition truthy_scalar (c : scalar) : bool :=
  match c with
  | SUndefined | SNull => false
  | SBool b => b
  | SNum n => negb (n =? 0)%Z
  | SStr s => negb (String.eqb s EmptyString)
  end.

Definition truthy (v : value) : bool :=
  match v with
  | VScalar c => truthy_scalar c
  | VArr _ | VObj _ => true
  end.

(** [v === 'lit'] and [v === n] against a literal. *)
Definition is_string (v : value) (lit : string) : bool :=
  match v with
  | VScalar (SStr s) => String.eqb s lit
  | _ => false
  end.

Definition is_number (v : value) (n : Z) : bool :=
  match v with
  | VScalar (SNum m) => (m =? n)%Z
  | _ => false
  end.

(** Own property of an object literal; [undefined] when the key is missing. *)
Definition field (k : string) (fields : list (string * value)) : value :=
  fold_left (fun acc kv => if String.eqb k (fst kv) then snd kv else acc)
            fields undefined.

(** [v.k] for the keys the provider reads ([method], [params], [result],
    [code]): a TypeError ([None]) on [undefined] and [null], [undefined] on
    the other primitives and on arrays, the property on an object. *)
Definition get_prop (v : value) (k : string) : option value :=
  match v with
  | VScalar SUndefined | VScalar SNull => None
  | VScalar _ | VArr _ => Some undefined
  | VObj fields => Some (field k fields)
  end.

(** Number of constructors of a value, to tell an object from its own
    property. *)
Fixpoint value_size (v : value) : nat :=
  match v with
  | VScalar _ => 1
  | VArr items => S (fold_right (fun x n => value_size x + n) 0 items)
  | VObj fields => S (fold_right (fun kv n => value_size (snd kv) + n) 0 fields)
  end.

(** [res.error.code === n]. *)
Definition has_code (e : value) (n : Z) : bool :=
  match get_prop e "code" with
  | Some c => is_number c n
  | None => false
  end.

(** ** Requests, responses, callbacks *)

(** A JSON-RPC request object as the provider reads it; [method] is [None]
    when the key is missing (the [{}] that [sendAsync] hands to [enable]). *)
Record payload := Payload {
  id : value;
  jsonrpc : value;
  method : option string;
  params : value;
}.

(** [payload.method === 'lit']. *)
Definition method_is (p : payload) (lit : string) : bool :=
  match method p with
  | Some m => String.eqb m lit
  | None => false
  end.

(** A JSON-RPC response object; a missing key reads as [undefined]. *)
Record response := Response {
  r_id : value;
  r_jsonrpc : value;
  result : value;
  error : value;
}.

(** The callbacks the provider hands to [rpcEngine.handle], as data. *)
Inductive callback :=
| noop                          (* function noop () {}, line 336 *)
| enable_cb (pr : nat)          (* (err, res) => ... of enable, lines 207-230 *)
| getAccounts_cb (pr : nat)     (* function (error, response) of getAccounts, lines 309-318 *)
| app_cb (k : nat).             (* a callback supplied by the application *)

(** ** Events *)

(** The objects [emit] is called on: a provider instance, or the public
    config store of an instance. *)
Inductive emitter :=
| Provider (i : nat)
| ConfigStore (i : nat).

Record event := Emit {
  target : emitter;
  name : string;
  args : list value;
}.

(** ** State *)

(** [let isEnabled = false] and [let isConnected = false], lines 12-13: one
    pair for the module, whatever the number of providers constructed. *)
Record flags := Flags {
  isEnabled : bool;
  isConnected : bool;
}.

(** What one provider instance owns. *)
Record provider := MkProvider {
  selectedAddress : scalar;                   (* self.selectedAddress *)
  networkVersion : scalar;                    (* self.networkVersion *)
  publicConfigStore : gmap string scalar;     (* state held by self.publicConfigStore *)
  rpcEngine : list (payload * callback);      (* calls handed to self.rpcEngine, not yet called back *)
  error_listeners : nat;                      (* this.listenerCount('error') *)
  data_relays : nat;                          (* 'data' listeners installed by _subscribe *)
}.

Inductive settlement :=
| Pending
| Resolved (v : value)
| Rejected (v : value).

(** A promise: its state, and the promise its outcome is passed on to by
    [.then(resolve).catch(reject)]. *)
Record promise := MkPromise {
  settled : settlement;
  passes_to : option nat;
}.

Record world := World {
  module_flags : flags;
  instances : gmap nat provider;              (* the providers constructed, by number *)
  promises : list promise;
  emitted : list event;                       (* every emit, in order *)
  called_back : list (nat * value * response) (* application callbacks run, in order *)
}.

Definition set_flags (f : flags) (w : world) : world :=
  World f (instances w) (promises w) (emitted w) (called_back w).

Definition set_instances (l : gmap nat provider) (w : world) : world :=
  World (module_flags w) l (promises w) (emitted w) (called_back w).

Definition set_promises (l : list promise) (w : world) : world :=
  World (module_flags w) (instances w) l (emitted w) (called_back w).

Definition emit (t : emitter) (n : string) (a : list value) (w : world) : world :=
  World (module_flags w) (instances w) (promises w)
        (emitted w ++ [Emit t n a]) (called_back w).

Definition record_callback (k : nat) (err : value) (res : response) (w : world) : world :=
  World (module_flags w) (instances w) (promises w) (emitted w)
        (called_back w ++ [(k, err, res)]).

Definition set_selectedAddress (a : scalar) (p : provider) : provider :=
  MkProvider a (networkVersion p) (publicConfigStore p) (rpcEngine p)
             (error_listeners p) (data_relays p).

Definition set_networkVersion (n : scalar) (p : provider) : provider :=
  MkProvider (selectedAddress p) n (publicConfigStore p) (rpcEngine p)
             (error_listeners p) (data_relays p).

Definition set_publicConfigStore (s : gmap string scalar) (p : provider) : provider :=
  MkProvider (selectedAddress p) (networkVersion p) s (rpcEngine p)
             (error_listeners p) (data_relays p).

Definition set_rpcEngine (q : list (payload * callback)) (p : provider) : provider :=
  MkProvider (selectedAddress p) (networkVersion p) (publicConfigStore p) q
             (error_listeners p) (data_relays p).

Definition set_error_listeners (n : nat) (p : provider) : provider :=
  MkProvider (selectedAddress p) (networkVersion p) (publicConfigStore p)
             (rpcEngine p) n (data_relays p).

Definition set_data_relays (n : nat) (p : provider) : provider :=
  MkProvider (selectedAddress p) (networkVersion p) (publicConfigStore p)
             (rpcEngine p) (error_listeners p) n.

(** [new MetamaskInpageProvider(connectionStream)], lines 19-90, builds this
    state: the mirror fields are [undefined], the store is created with the
    object [{ storageKey: 'MetaMask-Config' }] as its state, the engine has
    no call in flight and nothing listens yet.  The constructor emits
    nothing and does not touch the module flags. *)
Definition MetamaskInpageProvider : provider :=
  MkProvider SUndefined SUndefined {[ "storageKey" := SStr "MetaMask-Config" ]}
             [] 0 0.

(** Provider number [i]: as constructed until something happened to it. *)
Definition instance (i : nat) (w : world) : provider :=
  default MetamaskInpageProvider (instances w !! i).

Definition update_instance (i : nat) (f : provider -> provider) (w : world) : world :=
  set_instances (<[i := f (instance i w)]> (instances w)) w.

(** The module as loaded: both flags false, every provider as constructed. *)
Definition loaded : world :=
  World (Flags false false) ∅ [] [] [].

(** The events emitted between [w] and a later [w']. *)
Definition emitted_since (w w' : world) : list event :=
  drop (length (emitted w)) (emitted w').

Definition named (n : string) (e : event) : bool := String.eqb (name e) n.

(** How many of the events [l] are called [n]. *)
Definition count_named (n : string) (l : list event) : nat :=
  length (filter (fun e => named n e = true) l).

(** ** Promises *)

(** [new Promise(...)]: the next promise, pending. *)
Definition new_promise (w : world) : nat * world :=
  (length (promises w), set_promises (promises w ++ [MkPromise Pending None]) w).

Definition promise_state (pr : nat) (w : world) : settlement :=
  match promises w !! pr with
  | Some p => settled p
  | None => Pending
  end.

(** One promise takes an outcome; on a promise that has one already,
    [resolve] and [reject] do nothing. *)
Definition settle_one (pr : nat) (s : settlement) (w : world) : world :=
  match promises w !! pr with
  | Some (MkPromise Pending to) =>
      set_promises (<[pr := MkPromise s to]> (promises w)) w
  | _ => w
  end.

(** [resolve] or [reject] of promise [pr], and of the promise that [pr]
    passes its outcome to.  The promises of this file are chained at most
    once: [getAccounts(...).then(resolve).catch(reject)]. *)
Definition settle (pr : nat) (s : settlement) (w : world) : world :=
  match promises w !! pr with
  | Some (MkPromise Pending to) =>
      let w1 := settle_one pr s w in
      match to with
      | Some parent => settle_one parent s w1
      | None => w1
      end
  | _ => w
  end.

Definition resolve (pr : nat) (v : value) : world -> world := settle pr (Resolved v).
Definition reject (pr : nat) (v : value) : world -> world := settle pr (Rejected v).

(** [q.then(resolve).catch(reject)] with the [resolve] and [reject] of [pr]. *)
Definition then_catch (q pr : nat) (w : world) : world :=
  match promises w !! q with
  | Some (MkPromise st _) =>
      set_promises (<[q := MkPromise st (Some pr)]> (promises w)) w
  | None => w
  end.

(** ** The RPC engine, as the provider uses it *)

(** Modelled from the spec: the engine (package json-rpc-engine with its
    stream middleware) is not in src/.  Section 4.2: a call records a
    pending call and writes the request; an inbound frame that matches a
    pending call delivers its result or error to that call's completion and
    removes the pending call.  [rpcEngine.handle(payload, cb)], line 142. *)
Definition rpcEngine_handle (i : nat) (p : payload) (cb : callback) (w : world) : world :=
  update_instance i (fun self => set_rpcEngine (rpcEngine self ++ [(p, cb)]) self) w.

(** ** The provider's methods *)

Inductive completion (A : Type) :=
| Returned (a : A)
| Thrown (message : string).

Arguments Returned {A} a.
Arguments Thrown {A} message.

(** [extend(opts, defaultOpts)] for a second argument with exactly the keys
    [method] and [params]: they override, the other keys of [opts] stay. *)
Definition extend (opts defaultOpts : payload) : payload :=
  Payload (id opts) (jsonrpc opts) (method defaultOpts) (params defaultOpts).

(** The object [{}]. *)
Definition empty_object : payload := Payload undefined undefined None undefined.

(** [`${payload.method}`]. *)
Definition method_text (p : payload) : string :=
  match method p with
  | Some m => m
  | None => "undefined"
  end.

Definition link : string :=
  "https://github.com/MetaMask/faq/blob/master/DEVELOPERS.md#dizzy-all-async---think-of-metamask-as-a-light-client".

Definition newline : string := String (ascii_of_nat 10) EmptyString.

Module prototype.

(** Lines 304-320.  The promise returned is the one [getAccounts_cb]
    settles; the request cannot be [eth_requestAccounts], so [sendAsync]
    (line 138) hands it to the engine. *)
Definition getAccounts (i : nat) (w : world) : nat * world :=
  let (q, w1) := new_promise w in
  (q, rpcEngine_handle i (Payload undefined undefined (Some "eth_accounts") (VArr []))
                       (getAccounts_cb q) w1).

(** Lines 196-232.  [options.method] is ['wallet_requestPermissions'],
    whatever [opts] holds, so the test of [sendAsync] on line 138 fails
    and line 142 runs. *)
Definition defaultOpts : payload :=
  Payload undefined undefined (Some "wallet_requestPermissions")
          (VArr [VObj [("eth_accounts", VObj [])]]).

Definition enable (i : nat) (opts : payload) (w : world) : nat * world :=
  let (pr, w1) := new_promise w in
  let options := extend opts defaultOpts in
  (pr, rpcEngine_handle i options (enable_cb pr) w1).

(** Lines 135-143. *)
Definition sendAsync (i : nat) (p : payload) (cb : callback) (w : world)
  : option nat * world :=
  if method_is p "eth_requestAccounts" then
    let (pr, w1) := enable i empty_object w in (Some pr, w1)
  else
    (None, rpcEngine_handle i p cb w).

(** Lines 145-188. *)
Definition _sendSync (i : nat) (p : payload) (w : world)
  : completion response * world :=
  let state := publicConfigStore (instance i w) in
  if method_is p "eth_accounts" then
    let selectedAddress := default SUndefined (state !! "selectedAddress") in
    let result := if truthy_scalar selectedAddress
                  then VArr [VScalar selectedAddress] else VArr [] in
    (Returned (Response (id p) (jsonrpc p) result undefined), w)
  else if method_is p "eth_coinbase" then
    let selectedAddress := default SUndefined (state !! "selectedAddress") in
    let result := if truthy_scalar selectedAddress
                  then VScalar selectedAddress else null in
    (Returned (Response (id p) (jsonrpc p) result undefined), w)
  else if method_is p "eth_uninstallFilter" then
    let w1 := snd (sendAsync i p noop w) in
    (Returned (Response (id p) (jsonrpc p) (SBool true) undefined), w1)
  else if method_is p "net_version" then
    let networkVersion := default SUndefined (state !! "networkVersion") in
    let result := if truthy_scalar networkVersion
                  then VScalar networkVersion else null in
    (Returned (Response (id p) (jsonrpc p) result undefined), w)
  else
    let message :=
      "The MetaMask Web3 object does not support synchronous methods like "
      +:+ method_text p +:+ " without a callback parameter. See "
      +:+ link +:+ " for details." in
    (Thrown message, w).

(** Lines 249-251 and 258-260: the receiver plays no part. *)
Definition isEnabled (i : nat) (w : world) : bool := isEnabled (module_flags w).
Definition isConnected (i : nat) (w : world) : bool := isConnected (module_flags w).

(** The listener [_subscribe] installs, lines 296-300.  Taking [method]
    and [params] out of [undefined] or [null], and reading
    [params.result] there, is a TypeError: the listener stops and the
    emitter carries on. *)
Definition relay (i : nat) (error arg : value) (w : world) : world :=
  match get_prop arg "method", get_prop arg "params" with
  | Some method, Some params =>
      if negb (truthy error) && is_string method "eth_subscription" then
        match get_prop params "result" with
        | Some r => emit (Provider i) "notification" [r] w
        | None => w
        end
      else w
  | _, _ => w
  end.

(** Lines 295-301: one more ['data'] listener. *)
Definition _subscribe (i : nat) (w : world) : world :=
  update_instance i (fun self => set_data_relays (S (data_relays self)) self) w.

(** [this.emit('data', error, arg)]: the event, then the listeners of
    [_subscribe], one after the other. *)
Definition emit_data (i : nat) (error arg : value) (w : world) : world :=
  Nat.iter (data_relays (instance i w)) (relay i error arg)
           (emit (Provider i) "data" [error; arg] w).

(** Lines 92-107.  [JSON_parse] is the built-in [JSON.parse]: [None] when
    it throws a SyntaxError, which the [catch] swallows, as it does the
    TypeError of [data.method] on [null]. *)
Definition receive (JSON_parse : string -> option value)
           (i : nat) (message : string) (w : world) : world :=
  match JSON_parse message with
  | Some data =>
      match get_prop data "method" with
      | Some method =>
          if truthy method && is_string method "eth_subscription"
          then emit_data i null (SStr message) w
          else w
      | None => w
      end
  | None => w
  end.

End prototype.

(** The handler of [self.publicConfigStore.subscribe], lines 40-57.  It is
    a [function], so [this] is the receiver its caller chooses, while [self]
    is provider [i]. *)
Definition subscribe_handler (this : emitter) (i : nat)
           (state : gmap string scalar) (w : world) : world :=
  let w1 :=
    if negb (isConnected (module_flags w)) then
      emit this "connect" []
           (set_flags (Flags (isEnabled (module_flags w)) true) w)
    else w in
  let w2 :=
    match state !! "selectedAddress" with
    | Some a =>
        if negb (strict_eq a (selectedAddress (instance i w1))) then
          emit (Provider i) "accountsChanged" [VArr [VScalar a]]
               (update_instance i (set_selectedAddress a) w1)
        else w1
    | None => w1
    end in
  match state !! "networkVersion" with
  | Some n =>
      if negb (strict_eq n (networkVersion (instance i w2))) then
        emit (Provider i) "networkChanged" [VScalar n]
             (update_instance i (set_networkVersion n) w2)
      else w2
  | None => w2
  end.

(** Modelled from the spec: the observable store behind
    [self.publicConfigStore] (package obs-store) and its stream adapter are
    not in src/.  Section 3: a new snapshot replaces the previous one
    atomically; section 4.3: each inbound snapshot is handed to the
    subscriber.  The store runs the subscriber as a listener of its own, so
    the handler's [this] is the store. *)
Definition snapshot_arrives (i : nat) (state : gmap string scalar) (w : world) : world :=
  subscribe_handler (ConfigStore i) i state
                    (update_instance i (set_publicConfigStore state) w).

(** [logStreamDisconnectWarning], lines 326-334, bound to provider [i];
    [err] is the stack of the stream's error, when there is one. *)
Definition logStreamDisconnectWarning (i : nat) (remoteLabel : string)
           (err : option string) (w : world) : world :=
  let w1 := set_flags (Flags (isEnabled (module_flags w)) false) w in
  let warningMsg := "MetamaskInpageProvider - lost connection to " +:+ remoteLabel in
  let warningMsg := match err with
                    | Some stack => warningMsg +:+ newline +:+ stack
                    | None => warningMsg
                    end in
  let listeners := error_listeners (instance i w1) in
  if (0 <? listeners)%nat then emit (Provider i) "error" [VScalar (SStr warningMsg)] w1
  else w1.

(** [provider.on('error', listener)]. *)
Definition on_error (i : nat) (w : world) : world :=
  update_instance i (fun self => set_error_listeners (S (error_listeners self)) self) w.

(** ** Callbacks run by the engine *)

(** The body of each callback, called with [(err, res)]. *)
Definition run_callback (i : nat) (cb : callback) (err : value) (res : response)
           (w : world) : world :=
  match cb with
  | noop => w
  | app_cb k => record_callback k err res w
  | enable_cb pr =>
      (* lines 207-230 *)
      if truthy err then reject pr err w
      else if truthy (error res) && has_code (error res) 5
      then reject pr (error res) w
      else if truthy (error res) then
        reject pr (VObj [("message", error res); ("code", VScalar (SNum 4001))]) w
      else
        let w1 := set_flags (Flags true (isConnected (module_flags w))) w in
        let (q, w2) := prototype.getAccounts i w1 in
        then_catch q pr w2
  | getAccounts_cb pr =>
      (* lines 309-318: no branch returns, the first outcome stays *)
      let w1 := if truthy err then reject pr err w else w in
      let w2 := if truthy (error res) then reject pr (error res) w1 else w1 in
      resolve pr (result res) w2
  end.

(** Modelled from the spec: the engine completes the pending call at
    position [k] of provider [i] with [(err, res)]: the call leaves the
    pending calls and its callback runs (section 4.2). *)
Definition engine_completes (i k : nat) (err : value) (res : response) (w : world) : world :=
  match rpcEngine (instance i w) !! k with
  | Some (_, cb) =>
      run_callback i cb err res
        (update_instance i (fun self => set_rpcEngine (delete k (rpcEngine self)) self) w)
  | None => w
  end.

(** ** A reader for JSON text

    [JSON.parse] is a parameter of [prototype.receive], and what the file
    proves about [receive] holds for every such parameter.  To run
    [receive] on concrete messages, [JSON_parse] reads a part of JSON: the
    texts made of objects, arrays, strings of printable characters without
    escapes, integers without a fraction or an exponent, and the three
    literals.  It refuses every other text, those included that [JSON.parse]
    accepts (escapes, fractions, exponents). *)

Local Open Scope char_scope.

Definition dquote : ascii := ascii_of_nat 34.

Definition is_space (c : ascii) : bool :=
  Ascii.eqb c " " || Ascii.eqb c (ascii_of_nat 9)
  || Ascii.eqb c (ascii_of_nat 10) || Ascii.eqb c (ascii_of_nat 13).

Fixpoint skip_space (s : string) : string :=
  match s with
  | String c r => if is_space c then skip_space r else s
  | EmptyString => s
  end.

(** The characters up to the closing quote, and the text after it. *)
Fixpoint read_chars (s : string) : option (string * string) :=
  match s with
  | EmptyString => None
  | String c r =>
      if Ascii.eqb c dquote then Some (EmptyString, r)
      else if Ascii.eqb c "\" then None
      else if (nat_of_ascii c <? 32)%nat then None
      else match read_chars r with
           | Some (t, r') => Some (String c t, r')
           | None => None
           end
  end.

Definition digit (c : ascii) : option Z :=
  let n := nat_of_ascii c in
  if (48 <=? n)%nat && (n <=? 57)%nat then Some (Z.of_nat (n - 48)) else None.

(** The digits at the head of [s], read after [acc]; [seen] tells whether a
    digit was read. *)
Fixpoint read_digits (s : string) (acc : Z) (seen : bool) : option (Z * string) :=
  match s with
  | String c r =>
      match digit c with
      | Some d => read_digits r (10 * acc + d)%Z true
      | None => if seen then Some (acc, s) else None
      end
  | EmptyString => if seen then Some (acc, s) else None
  end.

(** A zero at the head of [s] followed by another digit. *)
Definition leading_zero (s : string) : bool :=
  match s with
  | String "0" (String c _) => match digit c with Some _ => true | None => false end
  | _ => false
  end.

Definition read_natural (s : string) : option (Z * string) :=
  if leading_zero s then None else read_digits s 0%Z false.

Definition read_number (s : string) : option (value * string) :=
  match s with
  | String "-" r =>
      match read_natural r with
      | Some (n, r') => Some (VScalar (SNum (- n)), r')
      | None => None
      end
  | _ =>
      match read_natural s with
      | Some (n, r') => Some (VScalar (SNum n), r')
      | None => None
      end
  end.

(** [s] without the prefix [p], when it starts with it. *)
Fixpoint strip (p s : string) : option string :=
  match p, s with
  | EmptyString, _ => Some s
  | String a p', String b s' => if Ascii.eqb a b then strip p' s' else None
  | String _ _, EmptyString => None
  end.

Definition read_literal (s : string) : option (value * string) :=
  match strip "true" s, strip "false" s, strip "null" s with
  | Some r, _, _ => Some (VScalar (SBool true), r)
  | _, Some r, _ => Some (VScalar (SBool false), r)
  | _, _, Some r => Some (VScalar SNull, r)
  | None, None, None => read_number s
  end.

Fixpoint read_value (fuel : nat) (s : string) {struct fuel} : option (value * string) :=
  match fuel with
  | O => None
  | S n =>
      match skip_space s with
      | String c r =>
          if Ascii.eqb c "{" then
            match skip_space r with
            | String "}" r' => Some (VObj [], r')
            | _ => read_members n r []
            end
          else if Ascii.eqb c "[" then
            match skip_space r with
            | String "]" r' => Some (VArr [], r')
            | _ => read_elements n r []
            end
          else if Ascii.eqb c dquote then
            match read_chars r with
            | Some (t, r') => Some (VScalar (SStr t), r')
            | None => None
            end
          else read_literal (String c r)
      | EmptyString => None
      end
  end
with read_elements (fuel : nat) (s : string) (acc : list value) {struct fuel}
  : option (value * string) :=
  match fuel with
  | O => None
  | S n =>
      match read_value n s with
      | Some (v, r) =>
          match skip_space r with
          | String "," r' => read_elements n r' (acc ++ [v])
          | String "]" r' => Some (VArr (acc ++ [v]), r')
          | _ => None
          end
      | None => None
      end
  end
with read_members (fuel : nat) (s : string) (acc : list (string * value)) {struct fuel}
  : option (value * string) :=
  match fuel with
  | O => None
  | S n =>
      match skip_space s with
      | String c r =>
          if Ascii.eqb c dquote then
            match read_chars r with
            | Some (k, r1) =>
                match skip_space r1 with
                | String ":" r2 =>
                    match read_value n r2 with
                    | Some (v, r3) =>
                        match skip_space r3 with
                        | String "," r4 => read_members n r4 (acc ++ [(k, v)])
                        | String "}" r4 => Some (VObj (acc ++ [(k, v)]), r4)
                        | _ => None
                        end
                    | None => None
                    end
                | _ => None
                end
            | None => None
            end
          else None
      | EmptyString => None
      end
  end.

(** The value of a whole text; the fuel covers two steps per character. *)
Definition JSON_parse (s : string) : option value :=
  match read_value (2 * String.length s + 2) s with
  | Some (v, rest) =>
      match skip_space rest with
      | EmptyString => Some v
      | String _ _ => None
      end
  | None => None
  end.

(** JSON text written with apostrophes for the double quotes. *)
Fixpoint json (s : string) : string :=
  match s with
  | String c r => String (if Ascii.eqb c "'" then dquote else c) (json r)
  | EmptyString => EmptyString
  end.

Local Close Scope char_scope.

(** ** Runs and properties the theorems speak of *)

(** Snapshots arriving one after the other, each at the provider it names. *)
Definition snapshots_arrive (l : list (nat * gmap string scalar)) (w : world) : world :=
  fold_left (fun w d => snapshot_arrives (fst d) (snd d) w) l w.

(** The snapshots [l] arriving at provider [i]. *)
Definition deliver (i : nat) (l : list (gmap string scalar)) (w : world) : world :=
  snapshots_arrive (map (pair i) l) w.

(** Field [k] is present in [state] and is not the mirrored value. *)
Definition differs (k : string) (state : gmap string scalar) (mirrored : scalar) : Prop :=
  ∃ a, state !! k = Some a ∧ a ≠ mirrored.

(** [t] occurs in [s]. *)
Definition occurs_in (t s : string) : Prop :=
  ∃ pre post, s = pre +:+ t +:+ post.

(** The methods [_sendSync] has a case for. *)
Definition sync_methods : list string :=
  ["eth_accounts"; "eth_coinbase"; "eth_uninstallFilter"; "net_version"].

(** The runs of application callback [k] recorded in [l]. *)
Definition runs_of (k : nat) (l : list (nat * value * response)) : list (value * response) :=
  omap (fun c => if Nat.eqb (fst (fst c)) k then Some (snd (fst c), snd c) else None) l.

(** Every call pending on provider [i] in [w] is settled in [w']: it is
    pending no more, and an application callback has run exactly once since
    [w], with an error. *)
Definition settles_pending (i : nat) (w w' : world) : Prop :=
  ∀ p cb, (p, cb) ∈ rpcEngine (instance i w) →
    ((p, cb) ∉ rpcEngine (instance i w')) ∧
    (∀ k, cb = app_cb k →
      ∃ err res, truthy err = true ∧
        runs_of k (drop (length (called_back w)) (called_back w')) = [(err, res)]).

(** Whether [a] and [b] are the same object. *)
Definition same_emitter (a b : emitter) : bool :=
  match a, b with
  | Provider i, Provider j => Nat.eqb i j
  | ConfigStore i, ConfigStore j => Nat.eqb i j
  | _, _ => false
  end.

(** How many of the events [l] are called [n] and emitted on [t]. *)
Definition count_on (t : emitter) (n : string) (l : list event) : nat :=
  length (filter (fun e => same_emitter (target e) t && named n e = true) l).

(** What happens to the providers of a process, from outside: the streams
    deliver or end, the engine answers, the application calls. *)
Inductive input :=
| Snapshot (i : nat) (state : gmap string scalar)   (* arrives on the publicConfig stream *)
| Disconnect (i : nat) (remoteLabel : string) (err : option string)  (* a pump ends, lines 29-34, 59-63, 70-75 *)
| Answer (i k : nat) (err : value) (res : response) (* the engine completes a pending call *)
| Notification (i : nat) (message : string)         (* jsonRpcConnection 'notification', line 84 *)
| CallEnable (i : nat) (opts : payload)
| CallSendAsync (i : nat) (p : payload) (k : nat)   (* with application callback [k] *)
| CallSendSync (i : nat) (p : payload)
| CallSubscribe (i : nat)
| ListenError (i : nat).

Definition step (parse : string → option value) (x : input) (w : world) : world :=
  match x with
  | Snapshot i state => snapshot_arrives i state w
  | Disconnect i remoteLabel err => logStreamDisconnectWarning i remoteLabel err w
  | Answer i k err res => engine_completes i k err res w
  | Notification i message => prototype.receive parse i message w
  | CallEnable i opts => snd (prototype.enable i opts w)
  | CallSendAsync i p k => snd (prototype.sendAsync i p (app_cb k) w)
  | CallSendSync i p => snd (prototype._sendSync i p w)
  | CallSubscribe i => prototype._subscribe i w
  | ListenError i => on_error i w
  end.

Definition run (parse : string → option value) (l : list input) (w : world) : world :=
  fold_left (fun w x => step parse x w) l w.

Definition is_snapshot (x : input) : bool :=
  match x with Snapshot _ _ => true | _ => false end.

Definition is_disconnect (x : input) : bool :=
  match x with Disconnect _ _ _ => true | _ => false end.

(** The connected flag after the inputs [l], when it was [b] before: a
    snapshot sets it (line 42), a stream that ends clears it (line 327). *)
Definition connected_after (l : list input) (b : bool) : bool :=
  fold_left (fun b x => if is_snapshot x then true
                        else if is_disconnect x then false else b) l b.

(** After the first snapshot of the process, at provider [i], and whatever
    [later] brings: isConnected() is true on every provider and no other
    snapshot emits 'connect'. *)
Definition connected_for_good (parse : string → option value) (i : nat)
           (state : gmap string scalar) (later : list input) : Prop :=
  let w := snapshot_arrives i state loaded in
  (∀ j, prototype.isConnected j (run parse later w) = true)
  ∧ count_named "connect" (emitted_since w (run parse later w)) = 0.

(** The snapshot [x], if it is one for provider [i], carries no address. *)
Definition no_address_for (i : nat) (x : input) : Prop :=
  match x with
  | Snapshot j state =>
      j = i → truthy_scalar (default SUndefined (state !! "selectedAddress")) = false
  | _ => True
  end.

(** A subscription push, as text. *)
Definition subscription_push : string :=
  json "{'jsonrpc':'2.0','method':'eth_subscription','params':{'subscription':'0x1','result':'0xabc'}}".

(** ** More of the provider *)

(** The callback of [isApproved], lines 276-291, for the promise [pr] that
    [isApproved] returns: unlike the callback of [enable], it has no case
    for an error in the response other than code 5, and does not write
    [isEnabled]. *)
Definition isApproved_callback (i pr : nat) (err : value) (res : response)
           (w : world) : world :=
  if truthy err then reject pr err w
  else if truthy (error res) && has_code (error res) 5
  then reject pr (error res) w
  else
    let (q, w1) := prototype.getAccounts i w in
    then_catch q pr w1.

(** What the callback of [getAccounts] settles its promise with, lines
    310-317: the first of [reject(error)], [reject(response.error)] and
    [resolve(response.result)] that runs. *)
Definition getAccounts_outcome (err : value) (res : response) : settlement :=
  if truthy err then Rejected err
  else if truthy (error res) then Rejected (error res)
  else Resolved (result res).

(** The fields of a provider that mirror the wallet state. *)
Definition mirror_of (p : provider) : scalar * scalar * gmap string scalar :=
  (selectedAddress p, networkVersion p, publicConfigStore p).

(** The snapshot [x], if it is one for provider [i], carries no network
    version. *)
Definition no_version_for (i : nat) (x : input) : Prop :=
  match x with
  | Snapshot j state =>
      j = i → truthy_scalar (default SUndefined (state !! "networkVersion")) = false
  | _ => True
  end.

(** The streams that end in the run [l]. *)
Definition disconnects (l : list input) : nat :=
  length (filter (fun x => is_disconnect x = true) l).

(** Application callback [k], where [x] passes it to [sendAsync], comes
    with the method [eth_requestAccounts]. *)
Definition only_with_requestAccounts (k : nat) (x : input) : Prop :=
  match x with
  | CallSendAsync _ p k' => k' = k → method_is p "eth_requestAccounts" = true
  | _ => True
  end.

(** No provider of [w] has a pending call with the callback [cb]. *)
Definition not_pending (cb : callback) (w : world) : Prop :=
  ∀ j p, (p, cb) ∉ rpcEngine (instance j w).

(** Application callback [k] is with no pending call and has not run. *)
Definition callback_unused (k : nat) (w : world) : Prop :=
  not_pending (app_cb k) w ∧ runs_of k (called_back w) = [].

(** The input [x] is an answer of the engine. *)
Definition is_answer (x : input) : bool :=
  match x with Answer _ _ _ _ => true | _ => false end.

(** [receive] takes [message] for a subscription push: [JSON.parse] accepts
    it and the [method] of the result is ['eth_subscription']. *)
Definition is_push (parse : string → option value) (message : string) : bool :=
  match parse message with
  | Some data =>
      match get_prop data "method" with
      | Some m => is_string m "eth_subscription"
      | None => false
      end
  | None => false
  end.

(** * Properties *)

(** ** Basic facts about the state *)

Lemma instance_update_same i f w :
  instance i (update_instance i f w) = f (instance i w).
Proof.
  unfold instance at 1, update_instance. simpl.
  by rewrite lookup_insert_eq.
Qed.

Lemma instance_update_other i j f w :
  i ≠ j → instance j (update_instance i f w) = instance j w.
Proof.
  intros Hne. unfold instance, update_instance. simpl.
  by rewrite lookup_insert_ne.
Qed.

Lemma instance_emit t n a j w : instance j (emit t n a w) = instance j w.
Proof. reflexivity. Qed.

Lemma instance_set_flags f j w : instance j (set_flags f w) = instance j w.
Proof. reflexivity. Qed.

Lemma emitted_since_app w w' l :
  emitted w' = emitted w ++ l → emitted_since w w' = l.
Proof.
  intros H. unfold emitted_since. rewrite H. by rewrite drop_app_length.
Qed.

Lemma count_named_app n l1 l2 :
  count_named n (l1 ++ l2) = count_named n l1 + count_named n l2.
Proof. unfold count_named. by rewrite filter_app, length_app. Qed.

(** ** The state mirror *)

Ltac instance_simpl :=
  repeat (rewrite ?instance_emit, ?instance_set_flags, ?instance_update_same; simpl).

Ltac handler_cases this i state w :=
  unfold subscribe_handler;
  destruct (isConnected (module_flags w)) eqn:?; simpl; instance_simpl;
  (destruct (state !! "selectedAddress") as [?a|] eqn:?; simpl;
   [destruct (strict_eq a (selectedAddress (instance i w))) eqn:?; simpl|]);
  instance_simpl;
  (destruct (state !! "networkVersion") as [?n|] eqn:?; simpl;
   [destruct (strict_eq n (networkVersion (instance i w))) eqn:?; simpl|]);
  instance_simpl.

(** The events one run of the handler emits, in order. *)
Lemma subscribe_handler_emitted this i state w :
  emitted (subscribe_handler this i state w) =
  emitted w
  ++ (if isConnected (module_flags w) then [] else [Emit this "connect" []])
  ++ match state !! "selectedAddress" with
     | Some a =>
         if strict_eq a (selectedAddress (instance i w)) then []
         else [Emit (Provider i) "accountsChanged" [VArr [VScalar a]]]
     | None => []
     end
  ++ match state !! "networkVersion" with
     | Some n =>
         if strict_eq n (networkVersion (instance i w)) then []
         else [Emit (Provider i) "networkChanged" [VScalar n]]
     | None => []
     end.
Proof.
  handler_cases this i state w;
    rewrite ?app_nil_r, <- ?app_assoc; reflexivity.
Qed.

(** The mirror after one run of the handler. *)
Lemma subscribe_handler_selectedAddress this i state w :
  selectedAddress (instance i (subscribe_handler this i state w)) =
  default (selectedAddress (instance i w)) (state !! "selectedAddress").
Proof.
  handler_cases this i state w; try reflexivity;
    unfold strict_eq in *;
    match goal with
    | H : bool_decide (_ = _) = true |- _ => apply bool_decide_eq_true in H; congruence
    end.
Qed.

Lemma subscribe_handler_networkVersion this i state w :
  networkVersion (instance i (subscribe_handler this i state w)) =
  default (networkVersion (instance i w)) (state !! "networkVersion").
Proof.
  handler_cases this i state w; try reflexivity;
    unfold strict_eq in *;
    match goal with
    | H : bool_decide (_ = _) = true |- _ => apply bool_decide_eq_true in H; congruence
    end.
Qed.

Lemma subscribe_handler_isConnected this i state w :
  isConnected (module_flags (subscribe_handler this i state w)) = true.
Proof. handler_cases this i state w; auto. Qed.

Lemma subscribe_handler_isEnabled this i state w :
  isEnabled (module_flags (subscribe_handler this i state w)) = isEnabled (module_flags w).
Proof. handler_cases this i state w; auto. Qed.

Lemma strict_eq_true a b : strict_eq a b = true ↔ a = b.
Proof. unfold strict_eq. apply bool_decide_eq_true. Qed.

Lemma strict_eq_false a b : strict_eq a b = false ↔ a ≠ b.
Proof. unfold strict_eq. apply bool_decide_eq_false. Qed.

Lemma strict_eq_refl a : strict_eq a a = true.
Proof. by apply strict_eq_true. Qed.

(** The store takes the snapshot before the handler runs; the handler reads
    the mirror and the flags only. *)
Lemma snapshot_arrives_emitted i state w :
  emitted (snapshot_arrives i state w) =
  emitted w
  ++ (if isConnected (module_flags w) then [] else [Emit (ConfigStore i) "connect" []])
  ++ match state !! "selectedAddress" with
     | Some a =>
         if strict_eq a (selectedAddress (instance i w)) then []
         else [Emit (Provider i) "accountsChanged" [VArr [VScalar a]]]
     | None => []
     end
  ++ match state !! "networkVersion" with
     | Some n =>
         if strict_eq n (networkVersion (instance i w)) then []
         else [Emit (Provider i) "networkChanged" [VScalar n]]
     | None => []
     end.
Proof.
  unfold snapshot_arrives. rewrite subscribe_handler_emitted.
  by instance_simpl.
Qed.

Lemma snapshot_arrives_selectedAddress i state w :
  selectedAddress (instance i (snapshot_arrives i state w)) =
  default (selectedAddress (instance i w)) (state !! "selectedAddress").
Proof.
  unfold snapshot_arrives. rewrite subscribe_handler_selectedAddress.
  by instance_simpl.
Qed.

Lemma snapshot_arrives_networkVersion i state w :
  networkVersion (instance i (snapshot_arrives i state w)) =
  default (networkVersion (instance i w)) (state !! "networkVersion").
Proof.
  unfold snapshot_arrives. rewrite subscribe_handler_networkVersion.
  by instance_simpl.
Qed.

Lemma snapshot_arrives_isConnected i state w :
  isConnected (module_flags (snapshot_arrives i state w)) = true.
Proof. apply subscribe_handler_isConnected. Qed.

(** C3: for every incoming snapshot, 'accountsChanged' is raised (once) if
    and only if selectedAddress is present in the snapshot and differs from
    the mirrored value, and 'networkChanged' likewise for networkVersion; a
    field absent from the snapshot leaves its mirrored value as it was; the
    same snapshot arriving a second time raises no event at all. *)
Theorem change_event_iff_field_differs this i state w :
  let w' := subscribe_handler this i state w in
  (count_named "accountsChanged" (emitted_since w w') = 1
     ↔ differs "selectedAddress" state (selectedAddress (instance i w)))
  ∧ (count_named "accountsChanged" (emitted_since w w') = 0
     ↔ ¬ differs "selectedAddress" state (selectedAddress (instance i w)))
  ∧ (count_named "networkChanged" (emitted_since w w') = 1
     ↔ differs "networkVersion" state (networkVersion (instance i w)))
  ∧ (count_named "networkChanged" (emitted_since w w') = 0
     ↔ ¬ differs "networkVersion" state (networkVersion (instance i w)))
  ∧ selectedAddress (instance i w')
    = default (selectedAddress (instance i w)) (state !! "selectedAddress")
  ∧ networkVersion (instance i w')
    = default (networkVersion (instance i w)) (state !! "networkVersion")
  ∧ emitted_since (snapshot_arrives i state w)
                  (snapshot_arrives i state (snapshot_arrives i state w)) = [].
Proof.
  intros w'. subst w'.
  rewrite (emitted_since_app _ _ _ (subscribe_handler_emitted this i state w)).
  rewrite !count_named_app. unfold differs.
  repeat split.
  - destruct (isConnected (module_flags w)); simpl;
      destruct (state !! "selectedAddress") as [a|]; simpl;
      try (destruct (strict_eq a _) eqn:E; simpl);
      destruct (state !! "networkVersion") as [n|]; simpl;
      try (destruct (strict_eq n _) eqn:E'; simpl);
      cbn; intros; try discriminate;
      (eexists; split; [reflexivity | by apply strict_eq_false]).
  - intros (a & -> & Hne). apply strict_eq_false in Hne. rewrite Hne.
    destruct (isConnected (module_flags w)); simpl;
      destruct (state !! "networkVersion") as [n|]; simpl;
      try destruct (strict_eq n _); reflexivity.
  - intros Hc (a & Ha & Hne). rewrite Ha in Hc.
    apply strict_eq_false in Hne. rewrite Hne in Hc.
    destruct (isConnected (module_flags w)); simpl in Hc;
      destruct (state !! "networkVersion") as [n|]; simpl in Hc;
      try destruct (strict_eq n _); discriminate.
  - intros Hn.
    destruct (state !! "selectedAddress") as [a|]; simpl.
    + destruct (strict_eq a _) eqn:E.
      * destruct (isConnected (module_flags w)); simpl;
          destruct (state !! "networkVersion") as [n|]; simpl;
          try destruct (strict_eq n _); reflexivity.
      * exfalso. apply Hn. exists a. split; [done | by apply strict_eq_false].
    + destruct (isConnected (module_flags w)); simpl;
        destruct (state !! "networkVersion") as [n|]; simpl;
        try destruct (strict_eq n _); reflexivity.
  - destruct (isConnected (module_flags w)); simpl;
      destruct (state !! "selectedAddress") as [a|]; simpl;
      try (destruct (strict_eq a _) eqn:E; simpl);
      destruct (state !! "networkVersion") as [n|]; simpl;
      try (destruct (strict_eq n _) eqn:E'; simpl);
      cbn; intros; try discriminate;
      (eexists; split; [reflexivity | by apply strict_eq_false]).
  - intros (n & -> & Hne). apply strict_eq_false in Hne. rewrite Hne.
    destruct (isConnected (module_flags w)); simpl;
      destruct (state !! "selectedAddress") as [a|]; simpl;
      try destruct (strict_eq a _); reflexivity.
  - intros Hc (n & Hn & Hne). rewrite Hn in Hc.
    apply strict_eq_false in Hne. rewrite Hne in Hc.
    destruct (isConnected (module_flags w)); simpl in Hc;
      destruct (state !! "selectedAddress") as [a|]; simpl in Hc;
      try destruct (strict_eq a _); discriminate.
  - intros Hn.
    destruct (state !! "networkVersion") as [n|]; simpl.
    + destruct (strict_eq n _) eqn:E.
      * destruct (isConnected (module_flags w)); simpl;
          destruct (state !! "selectedAddress") as [a|]; simpl;
          try destruct (strict_eq a _); reflexivity.
      * exfalso. apply Hn. exists n. split; [done | by apply strict_eq_false].
    + destruct (isConnected (module_flags w)); simpl;
        destruct (state !! "selectedAddress") as [a|]; simpl;
        try destruct (strict_eq a _); reflexivity.
  - apply subscribe_handler_selectedAddress.
  - apply subscribe_handler_networkVersion.
  - apply emitted_since_app.
    rewrite (snapshot_arrives_emitted i state (snapshot_arrives i state w)).
    rewrite snapshot_arrives_isConnected, snapshot_arrives_selectedAddress,
      snapshot_arrives_networkVersion.
    destruct (state !! "selectedAddress") as [a|]; simpl;
      destruct (state !! "networkVersion") as [n|]; simpl;
      rewrite ?strict_eq_refl; simpl; by rewrite ?app_nil_r.
Qed.

(** C9: when the provider mirrors the address 0xabc and a snapshot clears
    the address with null, the 'accountsChanged' event carries the
    one-element list [null], not the empty list.  Whatever value a snapshot
    changes selectedAddress to, the event carries the list of that one
    value. *)
Theorem accountsChanged_carries_cleared_address :
  (let w := snapshot_arrives 0 {[ "selectedAddress" := SStr "0xabc" ]} loaded in
   emitted_since w (snapshot_arrives 0 {[ "selectedAddress" := SNull ]} w)
   = [Emit (Provider 0) "accountsChanged" [VArr [VScalar SNull]]])
  ∧ (∀ this i state w e,
       e ∈ emitted_since w (subscribe_handler this i state w) →
       name e = "accountsChanged" →
       ∃ a, state !! "selectedAddress" = Some a
            ∧ a ≠ selectedAddress (instance i w)
            ∧ e = Emit (Provider i) "accountsChanged" [VArr [VScalar a]]).
Proof.
  split; [vm_compute; reflexivity|].
  intros this i state w e.
  rewrite (emitted_since_app _ _ _ (subscribe_handler_emitted this i state w)).
  rewrite !elem_of_app. intros [He|[He|He]] Hn.
  - destruct (isConnected (module_flags w)); [by apply elem_of_nil in He|].
    apply list_elem_of_singleton in He. by subst.
  - destruct (state !! "selectedAddress") as [a|]; [|by apply elem_of_nil in He].
    destruct (strict_eq a (selectedAddress (instance i w))) eqn:E;
      [by apply elem_of_nil in He|].
    apply list_elem_of_singleton in He. exists a.
    by apply strict_eq_false in E.
  - destruct (state !! "networkVersion") as [n|]; [|by apply elem_of_nil in He].
    destruct (strict_eq n (networkVersion (instance i w)));
      [by apply elem_of_nil in He|].
    apply list_elem_of_singleton in He. by subst.
Qed.

(** ** The connected flag *)

(** What arrives at any provider emits 'connect' only if the flag is not
    set, and sets it. *)
Lemma snapshot_arrives_connect i state w :
  ∃ l, emitted (snapshot_arrives i state w) = emitted w ++ l
       ∧ count_named "connect" l = if isConnected (module_flags w) then 0 else 1.
Proof.
  eexists. split; [apply snapshot_arrives_emitted|].
  rewrite !count_named_app.
  destruct (isConnected (module_flags w)); simpl;
    destruct (state !! "selectedAddress") as [a|]; simpl;
    try destruct (strict_eq a _); simpl;
    destruct (state !! "networkVersion") as [n|]; simpl;
    try destruct (strict_eq n _); reflexivity.
Qed.

Lemma snapshots_arrive_cons d l w :
  snapshots_arrive (d :: l) w = snapshots_arrive l (snapshot_arrives (fst d) (snd d) w).
Proof. reflexivity. Qed.

Lemma count_on_app t n l1 l2 :
  count_on t n (l1 ++ l2) = count_on t n l1 + count_on t n l2.
Proof. unfold count_on. by rewrite filter_app, length_app. Qed.

Lemma count_on_cons t n e l :
  count_on t n (e :: l)
  = (if same_emitter (target e) t && named n e then 1 else 0) + count_on t n l.
Proof.
  unfold count_on. rewrite filter_cons.
  destruct (same_emitter (target e) t && named n e); reflexivity.
Qed.

(** The handler emits 'connect' on its [this], the change events on
    [self]: a snapshot emits no 'connect' on a provider. *)
Lemma snapshot_arrives_on_provider i t state w :
  ∃ evs, emitted (snapshot_arrives i state w) = emitted w ++ evs
         ∧ count_on (Provider t) "connect" evs = 0.
Proof.
  eexists. split; [apply snapshot_arrives_emitted|].
  rewrite !count_on_app.
  destruct (isConnected (module_flags w)); simpl;
    destruct (state !! "selectedAddress") as [a|]; simpl;
    try destruct (strict_eq a _); simpl;
    destruct (state !! "networkVersion") as [n|]; simpl;
    try destruct (strict_eq n _);
    rewrite ?count_on_cons; unfold named; simpl;
    rewrite ?andb_false_r; reflexivity.
Qed.

Lemma snapshots_arrive_on_provider l t w :
  ∃ evs, emitted (snapshots_arrive l w) = emitted w ++ evs
         ∧ count_on (Provider t) "connect" evs = 0.
Proof.
  revert w. induction l as [|[i state] l IH]; intros w.
  - exists []. by rewrite app_nil_r.
  - rewrite snapshots_arrive_cons. simpl.
    destruct (snapshot_arrives_on_provider i t state w) as (l1 & E1 & C1).
    destruct (IH (snapshot_arrives i state w)) as (l2 & E2 & C2).
    exists (l1 ++ l2). split; [by rewrite E2, E1, app_assoc|].
    by rewrite count_on_app, C1, C2.
Qed.

(** C2: a provider in a module just loaded receives two snapshots.  No
    'connect' is emitted on the provider: the one 'connect' of the run is
    emitted on the store that runs the handler, because line 43 calls
    this.emit where lines 49 and 55 call self.emit.  Whatever the state and
    the snapshots, the handler emits 'connect' on its this only, and the
    snapshots that arrive at a provider emit no 'connect' on any
    provider. *)
Theorem connect_is_emitted_on_the_store :
  (count_on (Provider 0) "connect"
     (emitted (deliver 0 [ {[ "selectedAddress" := SStr "0xabc" ]};
                           {[ "selectedAddress" := SStr "0xabc" ]} ] loaded)) = 0
   ∧ filter (fun e => named "connect" e = true)
       (emitted (deliver 0 [ {[ "selectedAddress" := SStr "0xabc" ]};
                             {[ "selectedAddress" := SStr "0xabc" ]} ] loaded))
     = [Emit (ConfigStore 0) "connect" []])
  ∧ (∀ this i state w e,
       e ∈ emitted_since w (subscribe_handler this i state w) →
       name e = "connect" → target e = this)
  ∧ (∀ i l t w,
       count_on (Provider t) "connect" (emitted_since w (deliver i l w)) = 0).
Proof.
  split; [split; vm_compute; reflexivity|]. split.
  - intros this i state w e.
    rewrite (emitted_since_app _ _ _ (subscribe_handler_emitted this i state w)).
    rewrite !elem_of_app. intros [He|[He|He]] Hn.
    + destruct (isConnected (module_flags w)); [by apply elem_of_nil in He|].
      apply list_elem_of_singleton in He. by subst.
    + destruct (state !! "selectedAddress") as [a|]; [|by apply elem_of_nil in He].
      destruct (strict_eq a _); [by apply elem_of_nil in He|].
      apply list_elem_of_singleton in He. by subst.
    + destruct (state !! "networkVersion") as [n|]; [|by apply elem_of_nil in He].
      destruct (strict_eq n _); [by apply elem_of_nil in He|].
      apply list_elem_of_singleton in He. by subst.
  - intros i l t w. unfold deliver.
    destruct (snapshots_arrive_on_provider (map (pair i) l) t w) as (evs & E & C).
    by rewrite (emitted_since_app _ _ _ E).
Qed.

(** ** The engine and the promises *)

Lemma rpcEngine_handle_pending i p cb w :
  rpcEngine (instance i (rpcEngine_handle i p cb w)) = rpcEngine (instance i w) ++ [(p, cb)].
Proof. unfold rpcEngine_handle. by rewrite instance_update_same. Qed.

Lemma rpcEngine_handle_other i j p cb w :
  i ≠ j → instance j (rpcEngine_handle i p cb w) = instance j w.
Proof. apply instance_update_other. Qed.

Lemma update_instance_twice i f g w :
  update_instance i g (update_instance i f w) = update_instance i (fun p => g (f p)) w.
Proof.
  unfold update_instance at 1. rewrite instance_update_same.
  unfold update_instance. simpl. by rewrite insert_insert_eq.
Qed.

Lemma update_instance_ext i f g w :
  f (instance i w) = g (instance i w) → update_instance i f w = update_instance i g w.
Proof. intros H. unfold update_instance. by rewrite H. Qed.

(** The call a provider has just handed to the engine is the last of its
    pending calls. *)
Lemma engine_completes_last i p cb err res w :
  engine_completes i (length (rpcEngine (instance i w))) err res
                   (rpcEngine_handle i p cb w)
  = run_callback i cb err res
      (update_instance i (set_rpcEngine (rpcEngine (instance i w))) w).
Proof.
  unfold engine_completes.
  rewrite rpcEngine_handle_pending, list_lookup_middle by reflexivity.
  f_equal. unfold rpcEngine_handle. rewrite update_instance_twice.
  apply update_instance_ext. simpl.
  by rewrite (delete_middle _ []), app_nil_r.
Qed.

Lemma update_instance_promises i f w : promises (update_instance i f w) = promises w.
Proof. reflexivity. Qed.

(** A pending promise that passes its outcome to no other takes the outcome
    it is given. *)
Lemma settle_pending pr s w :
  promises w !! pr = Some (MkPromise Pending None) →
  promise_state pr (settle pr s w) = s.
Proof.
  intros H. unfold settle, settle_one. rewrite H. simpl.
  unfold promise_state. simpl.
  rewrite list_lookup_insert_eq; [done|].
  by eapply lookup_lt_Some.
Qed.

(** An object is not one of its own properties. *)
Lemma normalized_differs e :
  VObj [("message", e); ("code", VScalar (SNum 4001))] ≠ e.
Proof.
  intros H. apply (f_equal value_size) in H. simpl in H. lia.
Qed.

(** C6: when the permission call behind enable() is answered with a
    response whose error has code 5, the promise enable() returned rejects
    with that very error; with any other error in the response it rejects
    with the object { message: <the error>, code: 4001 }, which is not the
    error of the response; eth_requestAccounts through sendAsync is
    enable(). *)
Theorem enable_rejects i opts err res w :
  truthy err = false →
  truthy (error res) = true →
  let pr := fst (prototype.enable i opts w) in
  let w2 := engine_completes i (length (rpcEngine (instance i w))) err res
                             (snd (prototype.enable i opts w)) in
  let normalized := VObj [("message", error res); ("code", VScalar (SNum 4001))] in
  promise_state pr (snd (prototype.enable i opts w)) = Pending
  ∧ promise_state pr w2
    = Rejected (if has_code (error res) 5 then error res else normalized)
  ∧ normalized ≠ error res
  ∧ has_code normalized 4001 = true
  ∧ (∀ p cb, method_is p "eth_requestAccounts" = true →
       prototype.sendAsync i p cb w
       = (Some (fst (prototype.enable i empty_object w)),
          snd (prototype.enable i empty_object w))).
Proof.
  intros Herr Hres pr w2 normalized.
  assert (Hlook : (promises w ++ [MkPromise Pending None]) !! length (promises w)
                  = Some (MkPromise Pending None))
    by (by apply list_lookup_middle).
  repeat split.
  - subst pr. unfold prototype.enable, new_promise, promise_state. simpl.
    by rewrite Hlook.
  - subst pr w2. unfold prototype.enable, new_promise. simpl.
    set (w1 := set_promises _ w).
    change (rpcEngine (instance i w)) with (rpcEngine (instance i w1)).
    rewrite engine_completes_last. simpl. rewrite Herr, Hres. simpl.
    destruct (has_code (error res) 5); simpl;
      unfold reject; apply settle_pending; exact Hlook.
  - apply normalized_differs.
  - intros p cb Hm. unfold prototype.sendAsync. rewrite Hm.
    by destruct (prototype.enable i empty_object w).
Qed.

Lemma enable_rejects_witness :
  let e := VObj [("code", VScalar (SNum 5)); ("message", VScalar (SStr "User rejected"))] in
  promise_state 0
    (engine_completes 0 0 null (Response undefined undefined undefined e)
                      (snd (prototype.enable 0 empty_object loaded)))
  = Rejected e.
Proof.
  intros e.
  apply (enable_rejects 0 empty_object null
           (Response undefined undefined undefined e) loaded);
    reflexivity.
Defined.

Lemma then_catch_instance q pr j w : instance j (then_catch q pr w) = instance j w.
Proof. unfold then_catch. by destruct (promises w !! q) as [[]|]. Qed.

Lemma then_catch_flags q pr w : module_flags (then_catch q pr w) = module_flags w.
Proof. unfold then_catch. by destruct (promises w !! q) as [[]|]. Qed.

Lemma then_catch_fresh q pr w l :
  promises w = l ++ [MkPromise Pending None] → q = length l →
  promises (then_catch q pr w) = l ++ [MkPromise Pending (Some pr)].
Proof.
  intros H ->. unfold then_catch. rewrite H, list_lookup_middle by reflexivity.
  simpl. rewrite <- (Nat.add_0_r (length l)). by rewrite insert_app_r.
Qed.

(** The pending call at position [k], whatever else is pending. *)
Lemma engine_completes_at i k p cb err res w :
  rpcEngine (instance i w) !! k = Some (p, cb) →
  engine_completes i k err res w
  = run_callback i cb err res
      (update_instance i (fun self => set_rpcEngine (delete k (rpcEngine self)) self) w).
Proof. intros H. unfold engine_completes. by rewrite H. Qed.

(** Lines 226-229: the permission call answered without an error. *)
Lemma enable_cb_granted i pr err res w :
  truthy err = false → truthy (error res) = false →
  run_callback i (enable_cb pr) err res w
  = then_catch (length (promises w)) pr
      (rpcEngine_handle i (Payload undefined undefined (Some "eth_accounts") (VArr []))
         (getAccounts_cb (length (promises w)))
         (set_promises (promises w ++ [MkPromise Pending None])
            (set_flags (Flags true (isConnected (module_flags w))) w))).
Proof. intros He Hr. simpl. by rewrite He, Hr. Qed.

(** The whole of a successful enable(): the permission call, then the
    eth_accounts call, both answered without an error. *)
Lemma enable_succeeds i opts err res err' res' w :
  truthy err = false → truthy (error res) = false →
  truthy err' = false → truthy (error res') = false →
  let k := length (rpcEngine (instance i w)) in
  let pr := fst (prototype.enable i opts w) in
  let w1 := engine_completes i k err res (snd (prototype.enable i opts w)) in
  let w2 := engine_completes i k err' res' w1 in
  isEnabled (module_flags w1) = true
  ∧ isEnabled (module_flags w2) = true
  ∧ promise_state pr w2 = Resolved (result res').
Proof.
  intros He Hr He' Hr' k pr w1 w2.
  set (old := rpcEngine (instance i w)) in *.
  set (ps := promises w) in *.
  assert (E1 : w1 = then_catch (S (length ps)) pr
      (rpcEngine_handle i (Payload undefined undefined (Some "eth_accounts") (VArr []))
         (getAccounts_cb (S (length ps)))
         (set_promises ((ps ++ [MkPromise Pending None]) ++ [MkPromise Pending None])
            (set_flags (Flags true (isConnected (module_flags w)))
               (update_instance i (set_rpcEngine old)
                  (set_promises (ps ++ [MkPromise Pending None]) w)))))).
  { subst w1 k pr. unfold prototype.enable, new_promise. simpl.
    set (wp := set_promises _ w).
    change (length old) with (length (rpcEngine (instance i wp))).
    rewrite engine_completes_last.
    rewrite enable_cb_granted by assumption. simpl.
    rewrite length_app. simpl. rewrite Nat.add_1_r. reflexivity. }
  assert (F1 : isEnabled (module_flags w1) = true)
    by (rewrite E1, then_catch_flags; reflexivity).
  assert (P1 : promises w1
               = (ps ++ [MkPromise Pending None]) ++ [MkPromise Pending (Some pr)]).
  { rewrite E1. apply then_catch_fresh; [reflexivity|].
    rewrite length_app. simpl. by rewrite Nat.add_1_r. }
  assert (Q1 : rpcEngine (instance i w1)
               = old ++ [(Payload undefined undefined (Some "eth_accounts") (VArr []),
                          getAccounts_cb (S (length ps)))]).
  { rewrite E1, then_catch_instance, rpcEngine_handle_pending.
    f_equal. change (rpcEngine (instance i (update_instance i (set_rpcEngine old)
                       (set_promises (ps ++ [MkPromise Pending None]) w))) = old).
    by rewrite instance_update_same. }
  assert (E2 : w2 = resolve (S (length ps)) (result res')
                      (update_instance i
                         (fun self => set_rpcEngine (delete k (rpcEngine self)) self) w1)).
  { subst w2. erewrite engine_completes_at
      by (rewrite Q1; apply list_lookup_middle; reflexivity).
    simpl. by rewrite He', Hr'. }
  clearbody w2. clearbody w1. clear E1.
  split; [exact F1|].
  assert (Hq : promises w1 !! S (length ps) = Some (MkPromise Pending (Some pr))).
  { rewrite P1. apply list_lookup_middle. rewrite length_app. simpl. lia. }
  assert (Hp : promises w1 !! pr = Some (MkPromise Pending None)).
  { rewrite P1. change pr with (length ps).
    rewrite lookup_app_l by (rewrite length_app; simpl; lia).
    by apply list_lookup_middle. }
  assert (Hne : S (length ps) ≠ pr).
  { change pr with (length ps). lia. }
  rewrite E2. unfold resolve, settle, settle_one.
  rewrite !update_instance_promises, Hq. simpl.
  rewrite list_lookup_insert_ne by exact Hne. rewrite Hp. simpl.
  split; [exact F1|].
  unfold promise_state. simpl.
  rewrite list_lookup_insert_eq; [reflexivity|].
  rewrite length_insert. by eapply lookup_lt_Some.
Qed.

(** ** The synchronous facade *)

Lemma method_is_eq p lit : method_is p lit = true → method p = Some lit.
Proof.
  unfold method_is. destruct (method p) as [m|]; [|discriminate].
  intros H. apply String.eqb_eq in H. by subst.
Qed.

Lemma append_assoc (a b c : string) : (a +:+ b) +:+ c = a +:+ (b +:+ c).
Proof.
  induction a as [|x a IH]; [reflexivity|].
  change (String x ((a +:+ b) +:+ c) = String x (a +:+ (b +:+ c))).
  by rewrite IH.
Qed.

(** The handler leaves every store as it is. *)
Lemma subscribe_handler_store this i j state w :
  publicConfigStore (instance j (subscribe_handler this i state w))
  = publicConfigStore (instance j w).
Proof.
  destruct (decide (i = j)) as [->|Hne].
  - handler_cases this j state w; reflexivity.
  - unfold subscribe_handler.
    destruct (isConnected (module_flags w)); simpl;
      destruct (state !! "selectedAddress") as [a|]; simpl;
      try destruct (strict_eq a _); simpl;
      destruct (state !! "networkVersion") as [n|]; simpl;
      try destruct (strict_eq n _); simpl;
      repeat (rewrite ?instance_emit, ?instance_set_flags;
              rewrite ?(instance_update_other i j) by exact Hne);
      reflexivity.
Qed.

Lemma snapshot_arrives_store_same i state w :
  publicConfigStore (instance i (snapshot_arrives i state w)) = state.
Proof.
  unfold snapshot_arrives. rewrite subscribe_handler_store.
  by rewrite instance_update_same.
Qed.

Lemma snapshot_arrives_store_other i j state w :
  i ≠ j →
  publicConfigStore (instance j (snapshot_arrives i state w))
  = publicConfigStore (instance j w).
Proof.
  intros Hne. unfold snapshot_arrives. rewrite subscribe_handler_store.
  by rewrite instance_update_other.
Qed.

(** [eth_accounts] answers from the store of the provider. *)
Lemma _sendSync_eth_accounts i p w :
  method_is p "eth_accounts" = true →
  prototype._sendSync i p w
  = (Returned (Response (id p) (jsonrpc p)
       (let a := default SUndefined (publicConfigStore (instance i w) !! "selectedAddress") in
        if truthy_scalar a then VArr [VScalar a] else VArr [])
       undefined), w).
Proof. intros H. unfold prototype._sendSync. by rewrite H. Qed.

(** C7: a synchronous eth_uninstallFilter call returns the response with
    result true, and hands the engine one more call: the same payload, with
    the callback that does nothing.  Nothing else changes. *)
Theorem uninstallFilter_true_and_dispatched i p w :
  method_is p "eth_uninstallFilter" = true →
  let w' := snd (prototype._sendSync i p w) in
  fst (prototype._sendSync i p w)
  = Returned (Response (id p) (jsonrpc p) (VScalar (SBool true)) undefined)
  ∧ rpcEngine (instance i w') = rpcEngine (instance i w) ++ [(p, noop)]
  ∧ (∀ j, i ≠ j → instance j w' = instance j w)
  ∧ promises w' = promises w
  ∧ emitted w' = emitted w
  ∧ called_back w' = called_back w
  ∧ module_flags w' = module_flags w.
Proof.
  intros Hm w'. subst w'.
  pose proof (method_is_eq _ _ Hm) as E.
  unfold prototype._sendSync, prototype.sendAsync, method_is. rewrite E. simpl.
  repeat split.
  - apply rpcEngine_handle_pending.
  - intros j Hne. by apply rpcEngine_handle_other.
Qed.

Lemma uninstallFilter_true_and_dispatched_witness :
  let p := Payload (VScalar (SNum 7)) (VScalar (SStr "2.0")) (Some "eth_uninstallFilter")
                   (VArr [VScalar (SStr "0x1")]) in
  fst (prototype._sendSync 0 p loaded)
  = Returned (Response (VScalar (SNum 7)) (VScalar (SStr "2.0")) (VScalar (SBool true)) undefined)
  ∧ rpcEngine (instance 0 (snd (prototype._sendSync 0 p loaded))) = [(p, noop)].
Proof.
  intros p.
  destruct (uninstallFilter_true_and_dispatched 0 p loaded eq_refl) as (H1 & H2 & _).
  split; [exact H1 | exact H2].
Defined.

(** C5: for a method that is none of eth_accounts, eth_coinbase,
    eth_uninstallFilter and net_version, the synchronous facade throws: it
    returns nothing, creates no promise and changes nothing; the message of
    the error contains the method and the link to the developer notes. *)
Theorem unsupported_sync_method_throws i p w :
  existsb (method_is p) sync_methods = false →
  ∃ message,
    prototype._sendSync i p w = (Thrown message, w)
    ∧ occurs_in (method_text p) message
    ∧ occurs_in link message
    ∧ occurs_in "does not support synchronous methods" message.
Proof.
  intros H. simpl in H.
  repeat (apply orb_false_elim in H; destruct H as [? H]).
  unfold prototype._sendSync.
  repeat match goal with Hm : method_is p _ = false |- _ => rewrite Hm; clear Hm end.
  eexists. split; [reflexivity|]. split; [|split].
  - eexists _, _. reflexivity.
  - exists ("The MetaMask Web3 object does not support synchronous methods like "
            +:+ method_text p +:+ " without a callback parameter. See "),
           " for details.".
    by rewrite !append_assoc.
  - exists "The MetaMask Web3 object ",
           (" like " +:+ method_text p +:+ " without a callback parameter. See "
            +:+ link +:+ " for details.").
    reflexivity.
Qed.

Lemma unsupported_sync_method_throws_witness :
  ∃ message,
    prototype._sendSync 0 (Payload (VScalar (SNum 1)) (VScalar (SStr "2.0"))
                                   (Some "eth_call") (VArr [])) loaded
    = (Thrown message, loaded)
    ∧ occurs_in "eth_call" message.
Proof.
  destruct (unsupported_sync_method_throws 0
              (Payload (VScalar (SNum 1)) (VScalar (SStr "2.0")) (Some "eth_call") (VArr []))
              loaded eq_refl) as (message & H1 & H2 & _).
  exists message. split; [exact H1 | exact H2].
Defined.

(** ** Losing the connection *)

(** C1, against the claim as stated: two calls of the application are
    pending on provider 0 when the stream ends; after the disconnect
    handler has run they are pending still. *)
Lemma disconnect_leaves_calls_pending :
  let p1 := Payload (VScalar (SNum 1)) (VScalar (SStr "2.0")) (Some "eth_blockNumber") (VArr []) in
  let p2 := Payload (VScalar (SNum 2)) (VScalar (SStr "2.0")) (Some "eth_gasPrice") (VArr []) in
  let w := snd (prototype.sendAsync 0 p2 (app_cb 1)
                  (snd (prototype.sendAsync 0 p1 (app_cb 0) loaded))) in
  ¬ settles_pending 0 w (logStreamDisconnectWarning 0 "MetaMask" None w).
Proof.
  intros p1 p2 w H.
  destruct (H p1 (app_cb 0)) as [Hgone _].
  - vm_compute. apply list_elem_of_here.
  - apply Hgone. vm_compute. apply list_elem_of_here.
Qed.

(** C1, amended: the disconnect handler clears the module's connected flag
    and emits one 'error' event with the warning text if and only if an
    'error' listener is registered on the provider; it completes no call:
    the pending calls of every provider, the promises and the callbacks run
    are as before. *)
Theorem disconnect_settles_nothing i remoteLabel err w :
  let w' := logStreamDisconnectWarning i remoteLabel err w in
  let lost := "MetamaskInpageProvider - lost connection to " +:+ remoteLabel in
  let warningMsg :=
    match err with Some stack => lost +:+ newline +:+ stack | None => lost end in
  instances w' = instances w
  ∧ promises w' = promises w
  ∧ called_back w' = called_back w
  ∧ isConnected (module_flags w') = false
  ∧ isEnabled (module_flags w') = isEnabled (module_flags w)
  ∧ emitted_since w w'
    = if (0 <? error_listeners (instance i w))%nat
      then [Emit (Provider i) "error" [VScalar (SStr warningMsg)]]
      else [].
Proof.
  intros w' lost warningMsg. subst w' warningMsg lost.
  unfold logStreamDisconnectWarning. rewrite instance_set_flags.
  destruct (0 <? error_listeners (instance i w))%nat; simpl; repeat split.
  - by apply emitted_since_app.
  - apply emitted_since_app. simpl. by rewrite app_nil_r.
Qed.

(** ** Notifications *)

(** The listener of [_subscribe] looks for [method] and [params] in what
    ['data'] carries; in a text it finds neither. *)
Lemma relay_text i error message w :
  prototype.relay i error (VScalar (SStr message)) w = w.
Proof. unfold prototype.relay. simpl. by rewrite andb_false_r. Qed.

Lemma emit_data_text i error message w :
  prototype.emit_data i error (VScalar (SStr message)) w
  = emit (Provider i) "data" [error; VScalar (SStr message)] w.
Proof.
  unfold prototype.emit_data.
  induction (data_relays (instance i w)) as [|n IH]; [reflexivity|].
  simpl. by rewrite IH, relay_text.
Qed.

(** Whatever [JSON.parse] makes of the message, and however many times
    [_subscribe] was called, [receive] emits at most the ['data'] event. *)
Lemma receive_emitted JSON_parse i message w :
  emitted (prototype.receive JSON_parse i message w) = emitted w
  ∨ emitted (prototype.receive JSON_parse i message w)
    = emitted w ++ [Emit (Provider i) "data" [null; VScalar (SStr message)]].
Proof.
  unfold prototype.receive.
  destruct (JSON_parse message) as [data|]; [|by left].
  destruct (get_prop data "method") as [m|]; [|by left].
  destruct (truthy m && is_string m "eth_subscription"); [|by left].
  right. by rewrite emit_data_text.
Qed.

(** C8: the provider has called _subscribe and receives the text of an
    eth_subscription push whose params.result is 0xabc.  It emits 'data'
    with null and the text, and nothing else: no 'notification' event.  No
    message ever makes receive emit 'notification'. *)
Theorem subscription_push_not_unwrapped :
  let w := prototype._subscribe 0 loaded in
  JSON_parse subscription_push
  = Some (VObj [("jsonrpc", VScalar (SStr "2.0"));
                ("method", VScalar (SStr "eth_subscription"));
                ("params", VObj [("subscription", VScalar (SStr "0x1"));
                                 ("result", VScalar (SStr "0xabc"))])])
  ∧ emitted_since w (prototype.receive JSON_parse 0 subscription_push w)
    = [Emit (Provider 0) "data" [null; VScalar (SStr subscription_push)]]
  ∧ (∀ parse i message w',
       count_named "notification"
         (emitted_since w' (prototype.receive parse i message w')) = 0).
Proof.
  intros w. split; [|split].
  - vm_compute. reflexivity.
  - vm_compute. reflexivity.
  - intros parse i message w'.
    destruct (receive_emitted parse i message w') as [E|E].
    + rewrite (emitted_since_app w' _ []); [reflexivity|by rewrite app_nil_r].
    + by rewrite (emitted_since_app _ _ _ E).
Qed.

(** ** Runs of the process *)

Lemma settle_one_quiet pr s w :
  emitted (settle_one pr s w) = emitted w
  ∧ module_flags (settle_one pr s w) = module_flags w.
Proof. unfold settle_one. by repeat case_match. Qed.

Lemma settle_quiet pr s w :
  emitted (settle pr s w) = emitted w
  ∧ module_flags (settle pr s w) = module_flags w.
Proof.
  unfold settle. repeat case_match; try done.
  - destruct (settle_one_quiet pr s w) as [E F].
    destruct (settle_one_quiet n s (settle_one pr s w)) as [E' F'].
    split; congruence.
  - apply settle_one_quiet.
Qed.

Lemma then_catch_emitted q pr w : emitted (then_catch q pr w) = emitted w.
Proof. unfold then_catch. by destruct (promises w !! q) as [[]|]. Qed.

(** A callback emits nothing and leaves the connected flag alone; only
    line 226 writes the enabled flag, and it sets it. *)
Lemma run_callback_effect i cb err res w :
  emitted (run_callback i cb err res w) = emitted w
  ∧ isConnected (module_flags (run_callback i cb err res w)) = isConnected (module_flags w)
  ∧ (isEnabled (module_flags w) = true →
     isEnabled (module_flags (run_callback i cb err res w)) = true).
Proof.
  destruct cb as [| pr | pr | k]; simpl.
  - done.
  - unfold reject.
    destruct (truthy err);
      [destruct (settle_quiet pr (Rejected err) w) as [-> ->]; done|].
    destruct (truthy (error res) && has_code (error res) 5);
      [destruct (settle_quiet pr (Rejected (error res)) w) as [-> ->]; done|].
    destruct (truthy (error res)).
    + match goal with |- context [settle pr ?s w] =>
        destruct (settle_quiet pr s w) as [-> ->] end. done.
    + rewrite then_catch_emitted, then_catch_flags. done.
  - unfold reject, resolve.
    set (w1 := if truthy err then _ else w).
    set (w2 := if truthy (error res) then _ else w1).
    assert (H1 : emitted w1 = emitted w ∧ module_flags w1 = module_flags w).
    { subst w1. destruct (truthy err); [apply settle_quiet|done]. }
    assert (H2 : emitted w2 = emitted w1 ∧ module_flags w2 = module_flags w1).
    { subst w2. destruct (truthy (error res)); [apply settle_quiet|done]. }
    destruct (settle_quiet pr (Resolved (result res)) w2) as [-> ->].
    destruct H1 as [<- <-], H2 as [<- <-]. done.
  - done.
Qed.

Lemma engine_completes_effect i k err res w :
  emitted (engine_completes i k err res w) = emitted w
  ∧ isConnected (module_flags (engine_completes i k err res w)) = isConnected (module_flags w)
  ∧ (isEnabled (module_flags w) = true →
     isEnabled (module_flags (engine_completes i k err res w)) = true).
Proof.
  unfold engine_completes.
  destruct (rpcEngine (instance i w) !! k) as [[p cb]|]; [|done].
  apply (run_callback_effect i cb err res
           (update_instance i (fun self => set_rpcEngine (delete k (rpcEngine self)) self) w)).
Qed.

Lemma emit_data_flags i error arg w :
  module_flags (prototype.emit_data i error arg w) = module_flags w.
Proof.
  unfold prototype.emit_data.
  induction (data_relays (instance i w)) as [|n IH]; [reflexivity|].
  simpl. unfold prototype.relay at 1. by repeat case_match.
Qed.

Lemma receive_flags parse i message w :
  module_flags (prototype.receive parse i message w) = module_flags w.
Proof.
  unfold prototype.receive. repeat case_match; try done. apply emit_data_flags.
Qed.

Lemma _sendSync_quiet i p w :
  emitted (snd (prototype._sendSync i p w)) = emitted w
  ∧ module_flags (snd (prototype._sendSync i p w)) = module_flags w.
Proof.
  unfold prototype._sendSync, prototype.sendAsync, prototype.enable, new_promise.
  repeat case_match; simplify_eq/=; done.
Qed.

Lemma sendAsync_quiet i p cb w :
  emitted (snd (prototype.sendAsync i p cb w)) = emitted w
  ∧ module_flags (snd (prototype.sendAsync i p cb w)) = module_flags w.
Proof.
  unfold prototype.sendAsync, prototype.enable, new_promise.
  repeat case_match; simplify_eq/=; done.
Qed.

(** What one input does to the 'connect' events and to the two flags. *)
Lemma step_effect parse x w :
  ∃ evs, emitted (step parse x w) = emitted w ++ evs
    ∧ count_named "connect" evs
      = (if is_snapshot x && negb (isConnected (module_flags w)) then 1 else 0)
    ∧ isConnected (module_flags (step parse x w))
      = (is_snapshot x || (negb (is_disconnect x) && isConnected (module_flags w)))
    ∧ (isEnabled (module_flags w) = true →
       isEnabled (module_flags (step parse x w)) = true).
Proof.
  destruct x as [i state | i label err | i k err res | i message | i opts
                | i p k | i p | i | i]; simpl.
  - destruct (snapshot_arrives_connect i state w) as (evs & E & C).
    exists evs. rewrite snapshot_arrives_isConnected.
    unfold snapshot_arrives. rewrite subscribe_handler_isEnabled.
    repeat split; [exact E| |done].
    rewrite C. by destruct (isConnected (module_flags w)).
  - unfold logStreamDisconnectWarning. rewrite instance_set_flags.
    destruct (0 <? error_listeners (instance i w))%nat; simpl.
    + eexists. split; [reflexivity|]. done.
    + exists []. by rewrite app_nil_r.
  - destruct (engine_completes_effect i k err res w) as (E & C & F).
    exists []. rewrite app_nil_r, C. by destruct (isConnected (module_flags w)).
  - rewrite receive_flags.
    destruct (receive_emitted parse i message w) as [E|E].
    + exists []. rewrite app_nil_r. by destruct (isConnected (module_flags w)).
    + eexists. split; [exact E|]. by destruct (isConnected (module_flags w)).
  - exists []. rewrite app_nil_r. by destruct (isConnected (module_flags w)).
  - destruct (sendAsync_quiet i p (app_cb k) w) as [E F].
    exists []. rewrite app_nil_r, F. by destruct (isConnected (module_flags w)).
  - destruct (_sendSync_quiet i p w) as [E F].
    exists []. rewrite app_nil_r, F. by destruct (isConnected (module_flags w)).
  - exists []. rewrite app_nil_r. by destruct (isConnected (module_flags w)).
  - exists []. rewrite app_nil_r. by destruct (isConnected (module_flags w)).
Qed.

Lemma run_cons parse x l w : run parse (x :: l) w = run parse l (step parse x w).
Proof. reflexivity. Qed.

(** Nothing clears the enabled flag. *)
Lemma run_isEnabled parse l w :
  isEnabled (module_flags w) = true → isEnabled (module_flags (run parse l w)) = true.
Proof.
  revert w. induction l as [|x l IH]; intros w H; [exact H|].
  rewrite run_cons. apply IH.
  by destruct (step_effect parse x w) as (_ & _ & _ & _ & F); apply F.
Qed.

(** ** Who writes the store *)

Lemma update_instance_store i j f w :
  (∀ p, publicConfigStore (f p) = publicConfigStore p) →
  publicConfigStore (instance j (update_instance i f w)) = publicConfigStore (instance j w).
Proof.
  intros Hf. destruct (decide (i = j)) as [->|Hne].
  - by rewrite instance_update_same.
  - by rewrite instance_update_other.
Qed.

Lemma settle_one_instance pr s j w : instance j (settle_one pr s w) = instance j w.
Proof. unfold settle_one. by repeat case_match. Qed.

Lemma settle_instance pr s j w : instance j (settle pr s w) = instance j w.
Proof.
  unfold settle. repeat case_match; try done.
  - by rewrite !settle_one_instance.
  - by rewrite settle_one_instance.
Qed.

Lemma run_callback_store i j cb err res w :
  publicConfigStore (instance j (run_callback i cb err res w))
  = publicConfigStore (instance j w).
Proof.
  destruct cb as [| pr | pr | k]; simpl; try done.
  - unfold reject. repeat case_match; rewrite ?settle_instance; try done.
    rewrite then_catch_instance. unfold rpcEngine_handle.
    by rewrite update_instance_store.
  - unfold reject, resolve. rewrite settle_instance.
    repeat case_match; by rewrite ?settle_instance.
Qed.

Lemma emit_data_instance i j error arg w :
  instance j (prototype.emit_data i error arg w) = instance j w.
Proof.
  unfold prototype.emit_data.
  induction (data_relays (instance i w)) as [|n IH]; [reflexivity|].
  simpl. unfold prototype.relay at 1. by repeat case_match.
Qed.

(** Only an arriving snapshot writes the store of a provider. *)
Lemma step_store parse x j w :
  publicConfigStore (instance j (step parse x w))
  = match x with
    | Snapshot i state =>
        if decide (i = j) then state else publicConfigStore (instance j w)
    | _ => publicConfigStore (instance j w)
    end.
Proof.
  destruct x as [i state | i label err | i k err res | i message | i opts
                | i p k | i p | i | i]; simpl.
  - destruct (decide (i = j)) as [->|Hne].
    + apply snapshot_arrives_store_same.
    + by apply snapshot_arrives_store_other.
  - unfold logStreamDisconnectWarning. by repeat case_match.
  - unfold engine_completes. repeat case_match; try done.
    rewrite run_callback_store. by rewrite update_instance_store.
  - unfold prototype.receive. repeat case_match; try done.
    by rewrite emit_data_instance.
  - unfold prototype.enable, new_promise, rpcEngine_handle. simpl.
    by rewrite update_instance_store.
  - unfold prototype.sendAsync, prototype.enable, new_promise, rpcEngine_handle.
    repeat case_match; simplify_eq/=; by rewrite update_instance_store.
  - unfold prototype._sendSync, prototype.sendAsync, prototype.enable, new_promise,
      rpcEngine_handle.
    repeat case_match; simplify_eq/=; by rewrite ?update_instance_store.
  - unfold prototype._subscribe. by rewrite update_instance_store.
  - unfold on_error. by rewrite update_instance_store.
Qed.

Lemma run_no_address parse i l w :
  truthy_scalar (default SUndefined (publicConfigStore (instance i w) !! "selectedAddress")) = false →
  Forall (no_address_for i) l →
  truthy_scalar (default SUndefined
    (publicConfigStore (instance i (run parse l w)) !! "selectedAddress")) = false.
Proof.
  revert w. induction l as [|x l IH]; intros w Hw Hl; [exact Hw|].
  rewrite run_cons. inversion Hl as [|? ? Hx Hl']; subst.
  apply IH; [|exact Hl']. rewrite step_store.
  destruct x; try exact Hw. simpl in Hx.
  destruct (decide (i0 = i)) as [E|_]; [by apply Hx | exact Hw].
Qed.

(** C4: a synchronous eth_accounts call answers with the empty list as long
    as no snapshot with a selectedAddress has arrived at the provider,
    whatever else has happened since the module was loaded, and with the
    one-element list [selectedAddress] once a snapshot carrying an address
    has arrived. *)
Theorem eth_accounts_from_snapshot i p :
  method_is p "eth_accounts" = true →
  (∀ parse l,
     Forall (no_address_for i) l →
     prototype._sendSync i p (run parse l loaded)
     = (Returned (Response (id p) (jsonrpc p) (VArr []) undefined),
        run parse l loaded))
  ∧ (∀ state a w,
       state !! "selectedAddress" = Some a → truthy_scalar a = true →
       prototype._sendSync i p (snapshot_arrives i state w)
       = (Returned (Response (id p) (jsonrpc p) (VArr [VScalar a]) undefined),
          snapshot_arrives i state w)).
Proof.
  intros Hm. split.
  - intros parse l Hl. rewrite _sendSync_eth_accounts by exact Hm. simpl.
    by rewrite (run_no_address parse i l loaded) by (done || exact Hl).
  - intros state a w Ha Ht. rewrite _sendSync_eth_accounts by exact Hm. simpl.
    rewrite snapshot_arrives_store_same, Ha. simpl. by rewrite Ht.
Qed.

Lemma eth_accounts_from_snapshot_witness :
  let p := Payload (VScalar (SNum 1)) (VScalar (SStr "2.0")) (Some "eth_accounts") (VArr []) in
  let before := [CallSubscribe 0; Snapshot 0 {[ "networkVersion" := SStr "1" ]};
                 Snapshot 1 {[ "selectedAddress" := SStr "0xdef" ]}] in
  fst (prototype._sendSync 0 p (run JSON_parse before loaded))
  = Returned (Response (VScalar (SNum 1)) (VScalar (SStr "2.0")) (VArr []) undefined)
  ∧ fst (prototype._sendSync 0 p
           (snapshot_arrives 0 {[ "selectedAddress" := SStr "0xabc" ]} loaded))
    = Returned (Response (VScalar (SNum 1)) (VScalar (SStr "2.0"))
                         (VArr [VScalar (SStr "0xabc")]) undefined).
Proof.
  intros p before.
  destruct (eth_accounts_from_snapshot 0 p eq_refl) as [Hnone Hsome].
  split.
  - refine (f_equal fst (Hnone JSON_parse before _)).
    repeat constructor; simpl; intros; done.
  - exact (f_equal fst (Hsome {[ "selectedAddress" := SStr "0xabc" ]} (SStr "0xabc")
                                loaded eq_refl eq_refl)).
Defined.

(** * More properties of the provider *)

(** ** The synchronous facade, all of its cases *)

Lemma _sendSync_eth_coinbase i p w :
  method_is p "eth_coinbase" = true →
  prototype._sendSync i p w
  = (Returned (Response (id p) (jsonrpc p)
       (let a := default SUndefined (publicConfigStore (instance i w) !! "selectedAddress") in
        if truthy_scalar a then VScalar a else null)
       undefined), w).
Proof.
  intros H. pose proof (method_is_eq _ _ H) as E.
  unfold prototype._sendSync, method_is. by rewrite E.
Qed.

Lemma _sendSync_net_version i p w :
  method_is p "net_version" = true →
  prototype._sendSync i p w
  = (Returned (Response (id p) (jsonrpc p)
       (let n := default SUndefined (publicConfigStore (instance i w) !! "networkVersion") in
        if truthy_scalar n then VScalar n else null)
       undefined), w).
Proof.
  intros H. pose proof (method_is_eq _ _ H) as E.
  unfold prototype._sendSync, method_is. by rewrite E.
Qed.

(** X1: whatever the payload, a response of the synchronous facade carries
    the id and the jsonrpc of the payload and no error, and the facade
    throws only for a method outside its four cases; the call leaves the
    whole state as it was, except that eth_uninstallFilter hands the payload
    to the engine. *)
Theorem _sendSync_echoes_and_reads_only i p w :
  match fst (prototype._sendSync i p w) with
  | Returned r => r_id r = id p ∧ r_jsonrpc r = jsonrpc p ∧ error r = undefined
                  ∧ existsb (method_is p) sync_methods = true
  | Thrown _ => existsb (method_is p) sync_methods = false
  end
  ∧ snd (prototype._sendSync i p w)
    = (if method_is p "eth_uninstallFilter" then rpcEngine_handle i p noop w else w).
Proof.
  unfold prototype._sendSync, prototype.sendAsync. simpl.
  destruct (method_is p "eth_accounts") eqn:Ha.
  { apply method_is_eq in Ha. unfold method_is. rewrite Ha. simpl. done. }
  destruct (method_is p "eth_coinbase") eqn:Hc.
  { apply method_is_eq in Hc. unfold method_is. rewrite Hc. simpl. done. }
  destruct (method_is p "eth_uninstallFilter") eqn:Hu.
  { apply method_is_eq in Hu. unfold method_is. rewrite Hu. simpl. done. }
  destruct (method_is p "net_version") eqn:Hn; simpl; done.
Qed.

(** X2: on the same state, the list eth_accounts answers with is made of
    the address eth_coinbase answers with: one element when there is an
    address, none when eth_coinbase answers null. *)
Theorem eth_accounts_is_eth_coinbase i pa pc w :
  method_is pa "eth_accounts" = true →
  method_is pc "eth_coinbase" = true →
  ∃ ra rc,
    fst (prototype._sendSync i pa w) = Returned ra
    ∧ fst (prototype._sendSync i pc w) = Returned rc
    ∧ result ra = (if truthy (result rc) then VArr [result rc] else VArr [])
    ∧ (truthy (result rc) = false → result rc = null).
Proof.
  intros Ha Hc.
  rewrite (_sendSync_eth_accounts i pa w Ha), (_sendSync_eth_coinbase i pc w Hc).
  eexists _, _. split; [reflexivity|]. split; [reflexivity|]. simpl.
  destruct (truthy_scalar _) eqn:E; simpl; [by rewrite E|done].
Qed.

Lemma eth_accounts_is_eth_coinbase_witness :
  let w := snapshot_arrives 0 {[ "selectedAddress" := SStr "0xabc" ]} loaded in
  ∃ ra rc,
    fst (prototype._sendSync 0 (Payload (VScalar (SNum 1)) undefined (Some "eth_accounts") undefined) w)
    = Returned ra
    ∧ fst (prototype._sendSync 0 (Payload (VScalar (SNum 2)) undefined (Some "eth_coinbase") undefined) w)
      = Returned rc
    ∧ result ra = (if truthy (result rc) then VArr [result rc] else VArr [])
    ∧ (truthy (result rc) = false → result rc = null).
Proof.
  intros w.
  apply (eth_accounts_is_eth_coinbase 0
           (Payload (VScalar (SNum 1)) undefined (Some "eth_accounts") undefined)
           (Payload (VScalar (SNum 2)) undefined (Some "eth_coinbase") undefined) w);
    reflexivity.
Defined.

(** ** The mirror, the store and the other providers *)

Lemma update_instance_mirror i j f w :
  (∀ p, mirror_of (f p) = mirror_of p) →
  mirror_of (instance j (update_instance i f w)) = mirror_of (instance j w).
Proof.
  intros Hf. destruct (decide (i = j)) as [->|Hne].
  - by rewrite instance_update_same.
  - by rewrite instance_update_other.
Qed.

Lemma run_callback_mirror i j cb err res w :
  mirror_of (instance j (run_callback i cb err res w)) = mirror_of (instance j w).
Proof.
  destruct cb as [| pr | pr | k]; simpl; try done.
  - unfold reject. repeat case_match; rewrite ?settle_instance; try done.
    rewrite then_catch_instance. unfold rpcEngine_handle.
    by rewrite update_instance_mirror.
  - unfold reject, resolve. rewrite settle_instance.
    repeat case_match; by rewrite ?settle_instance.
Qed.

(** Nothing but an arriving snapshot writes the mirrored fields or the
    store of a provider. *)
Lemma step_mirror parse x j w :
  is_snapshot x = false →
  mirror_of (instance j (step parse x w)) = mirror_of (instance j w).
Proof.
  destruct x as [i state | i label err | i k err res | i message | i opts
                | i p k | i p | i | i]; simpl; intros Hx; try discriminate.
  - unfold logStreamDisconnectWarning. by repeat case_match.
  - unfold engine_completes. repeat case_match; try done.
    rewrite run_callback_mirror. by rewrite update_instance_mirror.
  - unfold prototype.receive. repeat case_match; try done.
    by rewrite emit_data_instance.
  - unfold prototype.enable, new_promise, rpcEngine_handle. simpl.
    by rewrite update_instance_mirror.
  - unfold prototype.sendAsync, prototype.enable, new_promise, rpcEngine_handle.
    repeat case_match; simplify_eq/=; by rewrite update_instance_mirror.
  - unfold prototype._sendSync, prototype.sendAsync, prototype.enable, new_promise,
      rpcEngine_handle.
    repeat case_match; simplify_eq/=; by rewrite ?update_instance_mirror.
  - unfold prototype._subscribe. by rewrite update_instance_mirror.
  - unfold on_error. by rewrite update_instance_mirror.
Qed.

Lemma snapshot_arrives_other i j state w :
  i ≠ j → instance j (snapshot_arrives i state w) = instance j w.
Proof.
  intros Hne. unfold snapshot_arrives, subscribe_handler.
  repeat case_match;
    repeat (rewrite ?instance_emit, ?instance_set_flags;
            rewrite ?(instance_update_other i j) by exact Hne);
    reflexivity.
Qed.

Lemma run_no_version parse i l w :
  truthy_scalar (default SUndefined (publicConfigStore (instance i w) !! "networkVersion")) = false →
  Forall (no_version_for i) l →
  truthy_scalar (default SUndefined
    (publicConfigStore (instance i (run parse l w)) !! "networkVersion")) = false.
Proof.
  revert w. induction l as [|x l IH]; intros w Hw Hl; [exact Hw|].
  rewrite run_cons. inversion Hl as [|? ? Hx Hl']; subst.
  apply IH; [|exact Hl']. rewrite step_store.
  destruct x; try exact Hw. simpl in Hx.
  destruct (decide (i0 = i)) as [E|_]; [by apply Hx | exact Hw].
Qed.

(** X3: a synchronous net_version call answers null in every run from the
    loading of the module in which no snapshot with a network version has
    arrived at the provider, whatever else has happened, and answers the
    network version once a snapshot carrying one has arrived. *)
Theorem net_version_from_snapshot i p :
  method_is p "net_version" = true →
  (∀ parse l,
     Forall (no_version_for i) l →
     prototype._sendSync i p (run parse l loaded)
     = (Returned (Response (id p) (jsonrpc p) null undefined), run parse l loaded))
  ∧ (∀ state n w,
       state !! "networkVersion" = Some n → truthy_scalar n = true →
       prototype._sendSync i p (snapshot_arrives i state w)
       = (Returned (Response (id p) (jsonrpc p) (VScalar n) undefined),
          snapshot_arrives i state w)).
Proof.
  intros Hm. split.
  - intros parse l Hl. rewrite _sendSync_net_version by exact Hm. simpl.
    by rewrite (run_no_version parse i l loaded) by (done || exact Hl).
  - intros state n w Hn Ht. rewrite _sendSync_net_version by exact Hm. simpl.
    rewrite snapshot_arrives_store_same, Hn. simpl. by rewrite Ht.
Qed.

Lemma net_version_from_snapshot_witness :
  let p := Payload (VScalar (SNum 1)) (VScalar (SStr "2.0")) (Some "net_version") (VArr []) in
  let before := [Snapshot 0 {[ "selectedAddress" := SStr "0xabc" ]};
                 Snapshot 1 {[ "networkVersion" := SStr "3" ]}] in
  fst (prototype._sendSync 0 p (run JSON_parse before loaded))
  = Returned (Response (VScalar (SNum 1)) (VScalar (SStr "2.0")) null undefined)
  ∧ fst (prototype._sendSync 0 p
           (snapshot_arrives 0 {[ "networkVersion" := SStr "1" ]} loaded))
    = Returned (Response (VScalar (SNum 1)) (VScalar (SStr "2.0"))
                         (VScalar (SStr "1")) undefined).
Proof.
  intros p before.
  destruct (net_version_from_snapshot 0 p eq_refl) as [Hnone Hsome].
  split.
  - refine (f_equal fst (Hnone JSON_parse before _)).
    repeat constructor; simpl; intros; done.
  - exact (f_equal fst (Hsome {[ "networkVersion" := SStr "1" ]} (SStr "1")
                                loaded eq_refl eq_refl)).
Defined.

(** X4: the synchronous facade reads the snapshot the store holds, the
    events read the mirrored field.  When a snapshot with an address is
    followed by a snapshot without the key selectedAddress, eth_accounts
    answers with the empty list, while self.selectedAddress still holds the
    address and the second snapshot raises no 'accountsChanged'. *)
Theorem eth_accounts_forgets_what_the_mirror_keeps i p first a second w :
  method_is p "eth_accounts" = true →
  first !! "selectedAddress" = Some a → truthy_scalar a = true →
  second !! "selectedAddress" = None →
  let w1 := snapshot_arrives i first w in
  let w2 := snapshot_arrives i second w1 in
  fst (prototype._sendSync i p w1)
  = Returned (Response (id p) (jsonrpc p) (VArr [VScalar a]) undefined)
  ∧ fst (prototype._sendSync i p w2)
    = Returned (Response (id p) (jsonrpc p) (VArr []) undefined)
  ∧ selectedAddress (instance i w2) = a
  ∧ count_named "accountsChanged" (emitted_since w1 w2) = 0.
Proof.
  intros Hm Ha Ht Hs w1 w2. subst w1 w2.
  rewrite !(_sendSync_eth_accounts i p) by exact Hm. simpl.
  rewrite !snapshot_arrives_store_same, Ha, Hs. simpl. rewrite Ht.
  rewrite !snapshot_arrives_selectedAddress, Ha, Hs. simpl.
  repeat split.
  rewrite (emitted_since_app _ _ _
             (snapshot_arrives_emitted i second (snapshot_arrives i first w))).
  rewrite snapshot_arrives_isConnected, Hs. simpl.
  destruct (second !! "networkVersion") as [n|]; [|done].
  by destruct (strict_eq n _).
Qed.

Lemma eth_accounts_forgets_what_the_mirror_keeps_witness :
  let p := Payload (VScalar (SNum 1)) undefined (Some "eth_accounts") undefined in
  let w2 := snapshot_arrives 0 {[ "networkVersion" := SStr "1" ]}
              (snapshot_arrives 0 {[ "selectedAddress" := SStr "0xabc" ]} loaded) in
  fst (prototype._sendSync 0 p w2)
  = Returned (Response (VScalar (SNum 1)) undefined (VArr []) undefined)
  ∧ selectedAddress (instance 0 w2) = SStr "0xabc".
Proof.
  intros p w2.
  assert (Ha : ({[ "selectedAddress" := SStr "0xabc" ]} : gmap string scalar)
                 !! "selectedAddress" = Some (SStr "0xabc")) by reflexivity.
  assert (Hs : ({[ "networkVersion" := SStr "1" ]} : gmap string scalar)
                 !! "selectedAddress" = None) by reflexivity.
  destruct (eth_accounts_forgets_what_the_mirror_keeps 0 p _ _ _ loaded
              eq_refl Ha eq_refl Hs) as (_ & H2 & H3 & _).
  split; [exact H2 | exact H3].
Defined.

Lemma mirror_follows_store_step parse x i w :
  default (selectedAddress (instance i w))
          (publicConfigStore (instance i w) !! "selectedAddress")
  = selectedAddress (instance i w) →
  default (networkVersion (instance i w))
          (publicConfigStore (instance i w) !! "networkVersion")
  = networkVersion (instance i w) →
  let p := instance i (step parse x w) in
  default (selectedAddress p) (publicConfigStore p !! "selectedAddress") = selectedAddress p
  ∧ default (networkVersion p) (publicConfigStore p !! "networkVersion") = networkVersion p.
Proof.
  intros Ha Hn p. subst p.
  destruct (is_snapshot x) eqn:Hx.
  - destruct x as [j state| | | | | | | |]; try discriminate. simpl.
    destruct (decide (j = i)) as [->|Hne].
    + rewrite snapshot_arrives_store_same, snapshot_arrives_selectedAddress,
        snapshot_arrives_networkVersion.
      split; [by destruct (state !! "selectedAddress")
             | by destruct (state !! "networkVersion")].
    + by rewrite snapshot_arrives_other.
  - pose proof (step_mirror parse x i w Hx) as E. unfold mirror_of in E.
    injection E as -> -> ->. done.
Qed.

(** X5: in every run from the loading of the module, a field that the
    store of a provider holds (selectedAddress, networkVersion) has the same
    value in the mirror self.selectedAddress, self.networkVersion: the
    mirror is never behind a snapshot that carries the field.  And nothing
    but an arriving snapshot writes either: every other input leaves the
    mirrored fields and the store of every provider as they were. *)
Theorem mirror_agrees_with_store parse l i :
  (let p := instance i (run parse l loaded) in
   default (selectedAddress p) (publicConfigStore p !! "selectedAddress") = selectedAddress p
   ∧ default (networkVersion p) (publicConfigStore p !! "networkVersion") = networkVersion p)
  ∧ (∀ x w j,
       is_snapshot x = false →
       selectedAddress (instance j (step parse x w)) = selectedAddress (instance j w)
       ∧ networkVersion (instance j (step parse x w)) = networkVersion (instance j w)
       ∧ publicConfigStore (instance j (step parse x w)) = publicConfigStore (instance j w)).
Proof.
  split.
  - assert (H : ∀ w,
      default (selectedAddress (instance i w))
              (publicConfigStore (instance i w) !! "selectedAddress")
      = selectedAddress (instance i w) →
      default (networkVersion (instance i w))
              (publicConfigStore (instance i w) !! "networkVersion")
      = networkVersion (instance i w) →
      let p := instance i (run parse l w) in
      default (selectedAddress p) (publicConfigStore p !! "selectedAddress") = selectedAddress p
      ∧ default (networkVersion p) (publicConfigStore p !! "networkVersion") = networkVersion p).
    { induction l as [|x l IH]; intros w Ha Hn; [by split|].
      rewrite run_cons.
      destruct (mirror_follows_store_step parse x i w Ha Hn) as [Ha' Hn'].
      by apply IH. }
    apply H; reflexivity.
  - intros x w j Hx.
    pose proof (step_mirror parse x j w Hx) as E. unfold mirror_of in E.
    by injection E as -> -> ->.
Qed.

(** X6: a snapshot that arrives at one provider leaves every other
    provider as it was (mirror, store, pending calls, listeners), and the
    change events it raises are emitted on the provider it arrived at; only
    'connect' goes to the handler's [this]. *)
Theorem snapshot_stays_with_its_provider i state w :
  (∀ j, i ≠ j → instance j (snapshot_arrives i state w) = instance j w)
  ∧ (∀ e, e ∈ emitted_since w (snapshot_arrives i state w) →
          (name e = "connect" ∧ target e = ConfigStore i)
          ∨ (name e ≠ "connect" ∧ target e = Provider i))
  ∧ rpcEngine (instance i (snapshot_arrives i state w)) = rpcEngine (instance i w)
  ∧ promises (snapshot_arrives i state w) = promises w
  ∧ called_back (snapshot_arrives i state w) = called_back w.
Proof.
  split; [|split; [|split; [|split]]].
  - intros j Hne. by apply snapshot_arrives_other.
  - intros e. rewrite (emitted_since_app _ _ _ (snapshot_arrives_emitted i state w)).
    rewrite !elem_of_app. intros [He|[He|He]].
    + destruct (isConnected (module_flags w)); [by apply elem_of_nil in He|].
      apply list_elem_of_singleton in He. subst. by left.
    + destruct (state !! "selectedAddress") as [a|]; [|by apply elem_of_nil in He].
      destruct (strict_eq a _); [by apply elem_of_nil in He|].
      apply list_elem_of_singleton in He. subst. by right.
    + destruct (state !! "networkVersion") as [n|]; [|by apply elem_of_nil in He].
      destruct (strict_eq n _); [by apply elem_of_nil in He|].
      apply list_elem_of_singleton in He. subst. by right.
  - unfold snapshot_arrives, subscribe_handler.
    repeat case_match; instance_simpl; reflexivity.
  - unfold snapshot_arrives, subscribe_handler. by repeat case_match.
  - unfold snapshot_arrives, subscribe_handler. by repeat case_match.
Qed.

(** ** Disconnecting and connecting again *)

(** X7: when the stream of one provider ends, isConnected() is false on
    every provider of the process while isEnabled() keeps its value; what
    the handler emits is an 'error' on the provider whose stream ended; and
    the next snapshot to arrive, at whatever provider, emits 'connect'
    again. *)
Theorem disconnect_is_process_wide i remoteLabel err w :
  let w' := logStreamDisconnectWarning i remoteLabel err w in
  (∀ j, prototype.isConnected j w' = false
        ∧ prototype.isEnabled j w' = prototype.isEnabled j w)
  ∧ (∀ e, e ∈ emitted_since w w' → target e = Provider i ∧ name e = "error")
  ∧ (∀ j state, count_named "connect" (emitted_since w' (snapshot_arrives j state w')) = 1).
Proof.
  intros w'.
  assert (Hflag : isConnected (module_flags w') = false).
  { subst w'. unfold logStreamDisconnectWarning. by repeat case_match. }
  split; [|split].
  - intros j. split; [exact Hflag|].
    subst w'. unfold logStreamDisconnectWarning, prototype.isEnabled.
    by repeat case_match.
  - intros e. subst w'. unfold logStreamDisconnectWarning.
    rewrite instance_set_flags.
    destruct (0 <? error_listeners (instance i w))%nat.
    + rewrite (emitted_since_app w _ [Emit (Provider i) "error" _]) by reflexivity.
      intros He. apply list_elem_of_singleton in He. by subst.
    + rewrite (emitted_since_app w _ []) by (simpl; by rewrite app_nil_r).
      intros He. by apply elem_of_nil in He.
  - intros j state.
    destruct (snapshot_arrives_connect j state w') as (evs & E & C).
    by rewrite (emitted_since_app _ _ _ E), C, Hflag.
Qed.

Lemma disconnects_cons x l :
  disconnects (x :: l) = (if is_disconnect x then 1 else 0) + disconnects l.
Proof.
  unfold disconnects. rewrite filter_cons.
  destruct (is_disconnect x); reflexivity.
Qed.

(** Each 'connect' but the first is paid for by a disconnect. *)
Lemma run_connect_bounds parse l w :
  ∃ evs, emitted (run parse l w) = emitted w ++ evs
    ∧ (count_named "connect" evs
        + (if isConnected (module_flags (run parse l w)) then 0 else 1)
       ≤ disconnects l + (if isConnected (module_flags w) then 0 else 1))%nat
    ∧ (isConnected (module_flags w) = false → existsb is_snapshot l = true →
       (1 ≤ count_named "connect" evs)%nat).
Proof.
  revert w. induction l as [|x l IH]; intros w.
  - exists []. rewrite app_nil_r. simpl. split; [done|]. split; [lia|done].
  - rewrite run_cons, disconnects_cons.
    destruct (step_effect parse x w) as (e1 & E1 & C1 & K1 & _).
    destruct (IH (step parse x w)) as (e2 & E2 & C2 & L2).
    exists (e1 ++ e2). split; [by rewrite E2, E1, app_assoc|].
    rewrite count_named_app, C1. rewrite K1 in C2, L2. split.
    + destruct (is_snapshot x) eqn:Hs, (is_disconnect x) eqn:Hd,
        (isConnected (module_flags w)); simpl in *; try lia;
        destruct x; discriminate.
    + intros Hw Hl. rewrite Hw in *. simpl in Hl.
      destruct (is_snapshot x); simpl in *; [lia|].
      rewrite andb_false_r in L2. specialize (L2 eq_refl Hl). lia.
Qed.

(** X8: in every run from the loading of the module, whatever the
    providers involved, the number of 'connect' events is at least one as
    soon as a snapshot has arrived, and at most one more than the number of
    stream disconnects. *)
Theorem connects_bounded_by_disconnects parse l :
  ((if existsb is_snapshot l then 1 else 0)
   ≤ count_named "connect" (emitted (run parse l loaded))
   ≤ S (disconnects l))%nat.
Proof.
  destruct (run_connect_bounds parse l loaded) as (evs & E & C & L).
  rewrite E. simpl in *. split.
  - destruct (existsb is_snapshot l); [by apply L | lia].
  - destruct (isConnected (module_flags (run parse l loaded))); lia.
Qed.

(** ** Promises and the calls behind them *)

Lemma settle_one_lookup pr s to w :
  promises w !! pr = Some (MkPromise Pending to) →
  promises (settle_one pr s w) = <[pr := MkPromise s to]> (promises w).
Proof. intros H. unfold settle_one. by rewrite H. Qed.

Lemma settle_one_settled pr s s' to w :
  promises w !! pr = Some (MkPromise s to) → s ≠ Pending →
  settle_one pr s' w = w.
Proof. intros H Hs. unfold settle_one. rewrite H. by destruct s. Qed.

(** A promise that is settled takes no other outcome. *)
Lemma settle_settled pr s s' to w :
  promises w !! pr = Some (MkPromise s to) → s ≠ Pending →
  settle pr s' w = w.
Proof. intros H Hs. unfold settle. rewrite H. by destruct s. Qed.

(** The promise [settle] is called on, afterwards. *)
Lemma settle_lookup pr s to w :
  promises w !! pr = Some (MkPromise Pending to) → s ≠ Pending →
  promises (settle pr s w) !! pr = Some (MkPromise s to).
Proof.
  intros H Hs. unfold settle. rewrite H.
  assert (Hlt : (pr < length (promises w))%nat) by (by eapply lookup_lt_Some).
  assert (H1 : promises (settle_one pr s w) !! pr = Some (MkPromise s to)).
  { rewrite (settle_one_lookup pr s to w H). by apply list_lookup_insert_eq. }
  destruct to as [parent|]; [|exact H1].
  unfold settle_one at 1.
  destruct (promises (settle_one pr s w) !! parent) as [[[] to']|] eqn:E;
    try exact H1.
  simpl. destruct (decide (parent = pr)) as [->|Hne].
  - rewrite H1 in E. injection E as E _. by subst.
  - by rewrite list_lookup_insert_ne.
Qed.

(** The promise that [pr] passes its outcome to, afterwards. *)
Lemma settle_passes_on pr parent s w :
  promises w !! pr = Some (MkPromise Pending (Some parent)) →
  promises w !! parent = Some (MkPromise Pending None) →
  promise_state parent (settle pr s w) = s.
Proof.
  intros H Hp. unfold settle. rewrite H.
  assert (Hne : pr ≠ parent) by (intros ->; congruence).
  assert (H1 : promises (settle_one pr s w) !! parent = Some (MkPromise Pending None)).
  { rewrite (settle_one_lookup pr s _ w H). by rewrite list_lookup_insert_ne. }
  unfold promise_state. rewrite (settle_one_lookup parent s None _ H1).
  rewrite list_lookup_insert_eq; [done|]. by eapply lookup_lt_Some.
Qed.

Lemma getAccounts_outcome_settled err res : getAccounts_outcome err res ≠ Pending.
Proof. unfold getAccounts_outcome. by repeat case_match. Qed.

(** The three calls of the callback of [getAccounts] come down to one. *)
Lemma getAccounts_cb_run i q to err res w :
  promises w !! q = Some (MkPromise Pending to) →
  run_callback i (getAccounts_cb q) err res w
  = settle q (getAccounts_outcome err res) w.
Proof.
  intros H. simpl. unfold reject, resolve, getAccounts_outcome.
  destruct (truthy err) eqn:He.
  - pose proof (settle_lookup q (Rejected err) to w H ltac:(done)) as H1.
    destruct (truthy (error res)).
    + rewrite (settle_settled q _ (Rejected (error res)) to _ H1) by done.
      by rewrite (settle_settled q _ (Resolved (result res)) to _ H1).
    + by rewrite (settle_settled q _ (Resolved (result res)) to _ H1).
  - destruct (truthy (error res)); [|done].
    pose proof (settle_lookup q (Rejected (error res)) to w H ltac:(done)) as H1.
    by rewrite (settle_settled q _ (Resolved (result res)) to _ H1).
Qed.

(** X9: the promise of getAccounts() is pending until the engine answers
    the eth_accounts call; it then rejects with the error of the engine if
    there is one, else rejects with the error of the response if there is
    one, else resolves with the result, and the later calls of reject and
    resolve in the callback change nothing.  The call is pending no
    more. *)
Theorem getAccounts_settles_once i err res w :
  let q := fst (prototype.getAccounts i w) in
  let w1 := snd (prototype.getAccounts i w) in
  let w2 := engine_completes i (length (rpcEngine (instance i w))) err res w1 in
  rpcEngine (instance i w1)
  = rpcEngine (instance i w)
    ++ [(Payload undefined undefined (Some "eth_accounts") (VArr []), getAccounts_cb q)]
  ∧ promise_state q w1 = Pending
  ∧ promise_state q w2 = getAccounts_outcome err res
  ∧ rpcEngine (instance i w2) = rpcEngine (instance i w)
  ∧ module_flags w2 = module_flags w.
Proof.
  intros q w1 w2.
  assert (Hq : (promises w ++ [MkPromise Pending None]) !! length (promises w)
               = Some (MkPromise Pending None)) by (by apply list_lookup_middle).
  subst q w1 w2. unfold prototype.getAccounts, new_promise. simpl.
  set (wp := set_promises _ w).
  change (rpcEngine (instance i w)) with (rpcEngine (instance i wp)).
  rewrite engine_completes_last.
  set (wq := update_instance i _ wp).
  assert (Hwq : promises wq !! length (promises w) = Some (MkPromise Pending None))
    by exact Hq.
  rewrite (getAccounts_cb_run i _ None err res wq Hwq).
  split; [apply rpcEngine_handle_pending|].
  split; [unfold promise_state; simpl; by rewrite Hq|].
  split; [|split].
  - unfold promise_state.
    by rewrite (settle_lookup _ _ None wq Hwq (getAccounts_outcome_settled err res)).
  - rewrite settle_instance. subst wq. by rewrite instance_update_same.
  - by destruct (settle_quiet (length (promises w)) (getAccounts_outcome err res) wq)
      as [_ ->].
Qed.

(** Whatever options [enable] is given, the call it hands to the engine is
    wallet_requestPermissions for eth_accounts. *)
Lemma enable_request i opts w :
  rpcEngine (instance i (snd (prototype.enable i opts w)))
  = rpcEngine (instance i w)
    ++ [(Payload (id opts) (jsonrpc opts) (Some "wallet_requestPermissions")
                 (VArr [VObj [("eth_accounts", VObj [])]]),
         enable_cb (length (promises w)))].
Proof.
  unfold prototype.enable, new_promise. simpl. by rewrite rpcEngine_handle_pending.
Qed.

(** X10: when the engine answers the permission call of enable() with an
    error of its own (a truthy err), the promise rejects with that error,
    whatever the response holds; isEnabled is not written, no eth_accounts
    call is made and the permission call is pending no more. *)
Theorem enable_system_error i opts err res w :
  truthy err = true →
  let pr := fst (prototype.enable i opts w) in
  let w2 := engine_completes i (length (rpcEngine (instance i w))) err res
                             (snd (prototype.enable i opts w)) in
  promise_state pr w2 = Rejected err
  ∧ module_flags w2 = module_flags w
  ∧ rpcEngine (instance i w2) = rpcEngine (instance i w)
  ∧ promises w2 = promises w ++ [MkPromise (Rejected err) None].
Proof.
  intros Herr pr w2. subst pr w2. unfold prototype.enable, new_promise. simpl.
  assert (Hq : (promises w ++ [MkPromise Pending None]) !! length (promises w)
               = Some (MkPromise Pending None)) by (by apply list_lookup_middle).
  set (wp := set_promises _ w).
  change (rpcEngine (instance i w)) with (rpcEngine (instance i wp)).
  rewrite engine_completes_last. simpl. rewrite Herr. unfold reject.
  set (wq := update_instance i _ wp).
  assert (Hwq : promises wq !! length (promises w) = Some (MkPromise Pending None))
    by exact Hq.
  split; [by apply settle_pending|]. split; [|split].
  - by destruct (settle_quiet (length (promises w)) (Rejected err) wq) as [_ ->].
  - rewrite settle_instance. subst wq. by rewrite instance_update_same.
  - unfold settle. rewrite Hwq. rewrite (settle_one_lookup _ _ None wq Hwq).
    change (promises wq) with (promises w ++ [MkPromise Pending None]).
    rewrite <- (Nat.add_0_r (length (promises w))). by rewrite insert_app_r.
Qed.

Lemma enable_system_error_witness :
  let boom := VObj [("message", VScalar (SStr "stream closed"))] in
  let res := Response undefined undefined undefined
                      (VObj [("code", VScalar (SNum 5))]) in
  promise_state 0
    (engine_completes 0 0 boom res (snd (prototype.enable 0 empty_object loaded)))
  = Rejected boom.
Proof.
  intros boom res.
  apply (enable_system_error 0 empty_object boom res loaded). reflexivity.
Defined.

(** Asking for the accounts on behalf of the pending promise [pr], as the
    callbacks of [enable] and [isApproved] do, and the answer. *)
Lemma accounts_for_promise i pr err res w :
  promises w !! pr = Some (MkPromise Pending None) →
  let q := fst (prototype.getAccounts i w) in
  let w1 := then_catch q pr (snd (prototype.getAccounts i w)) in
  let w2 := engine_completes i (length (rpcEngine (instance i w))) err res w1 in
  rpcEngine (instance i w1)
  = rpcEngine (instance i w)
    ++ [(Payload undefined undefined (Some "eth_accounts") (VArr []), getAccounts_cb q)]
  ∧ promise_state pr w1 = Pending
  ∧ module_flags w1 = module_flags w
  ∧ promise_state pr w2 = getAccounts_outcome err res
  ∧ rpcEngine (instance i w2) = rpcEngine (instance i w)
  ∧ module_flags w2 = module_flags w.
Proof.
  intros Hpr q w1 w2.
  assert (Hlt : (pr < length (promises w))%nat) by (by eapply lookup_lt_Some).
  assert (Hq : q = length (promises w)) by reflexivity.
  assert (P1 : promises w1 = promises w ++ [MkPromise Pending (Some pr)]).
  { subst w1. apply then_catch_fresh; [reflexivity | exact Hq]. }
  assert (Q1 : rpcEngine (instance i w1)
               = rpcEngine (instance i w)
                 ++ [(Payload undefined undefined (Some "eth_accounts") (VArr []),
                      getAccounts_cb q)]).
  { subst w1. rewrite then_catch_instance.
    unfold prototype.getAccounts, new_promise. simpl.
    by rewrite rpcEngine_handle_pending. }
  assert (F1 : module_flags w1 = module_flags w).
  { subst w1. by rewrite then_catch_flags. }
  assert (Hp1 : promises w1 !! pr = Some (MkPromise Pending None)).
  { rewrite P1. by rewrite lookup_app_l. }
  assert (Hq1 : promises w1 !! q = Some (MkPromise Pending (Some pr))).
  { rewrite P1, Hq. by apply list_lookup_middle. }
  assert (E2 : w2 = settle q (getAccounts_outcome err res)
                      (update_instance i
                         (fun self => set_rpcEngine
                            (delete (length (rpcEngine (instance i w))) (rpcEngine self)) self)
                         w1)).
  { subst w2. erewrite engine_completes_at
      by (rewrite Q1; apply list_lookup_middle; reflexivity).
    by apply (getAccounts_cb_run i q (Some pr)). }
  clearbody w2 w1 q.
  split; [exact Q1|]. split; [unfold promise_state; by rewrite Hp1|].
  split; [exact F1|]. rewrite E2. split; [|split].
  - by apply settle_passes_on.
  - rewrite settle_instance, instance_update_same. simpl.
    by rewrite Q1, (delete_middle _ []), app_nil_r.
  - match goal with |- module_flags (settle ?a ?b ?c) = _ =>
      destruct (settle_quiet a b c) as [_ ->] end.
    exact F1.
Qed.

(** X11: once the permission call of enable() is answered without an
    error, isEnabled is true and stays true whatever the eth_accounts call
    then brings: the promise of enable() takes the outcome of getAccounts,
    so enable() can reject while isEnabled() has become true. *)
Theorem enable_takes_the_outcome_of_getAccounts i opts err res err' res' w :
  truthy err = false → truthy (error res) = false →
  let k := length (rpcEngine (instance i w)) in
  let pr := fst (prototype.enable i opts w) in
  let granted := engine_completes i k err res (snd (prototype.enable i opts w)) in
  let answered := engine_completes i k err' res' granted in
  promise_state pr granted = Pending
  ∧ isEnabled (module_flags granted) = true
  ∧ promise_state pr answered = getAccounts_outcome err' res'
  ∧ isEnabled (module_flags answered) = true
  ∧ rpcEngine (instance i answered) = rpcEngine (instance i w).
Proof.
  intros He Hr k pr granted answered.
  set (wp := set_promises (promises w ++ [MkPromise Pending None]) w).
  set (w0 := set_flags (Flags true (isConnected (module_flags w)))
               (update_instance i (set_rpcEngine (rpcEngine (instance i w))) wp)).
  assert (Hpr : promises w0 !! pr = Some (MkPromise Pending None))
    by (by apply list_lookup_middle).
  assert (Hold : rpcEngine (instance i w0) = rpcEngine (instance i w)).
  { subst w0. rewrite instance_set_flags. by rewrite instance_update_same. }
  assert (Eg : granted
               = then_catch (fst (prototype.getAccounts i w0)) pr
                            (snd (prototype.getAccounts i w0))).
  { subst granted k pr. unfold prototype.enable, new_promise. simpl. fold wp.
    change (rpcEngine (instance i w)) with (rpcEngine (instance i wp)).
    rewrite engine_completes_last, enable_cb_granted by assumption.
    reflexivity. }
  destruct (accounts_for_promise i pr err' res' w0 Hpr)
    as (_ & P1 & F1 & P2 & Q2 & F2).
  subst answered. unfold k. rewrite Eg, <- Hold. clear Eg.
  split; [exact P1|]. split; [by rewrite F1|]. split; [exact P2|].
  split; [by rewrite F2 | exact Q2].
Qed.

Lemma enable_takes_the_outcome_of_getAccounts_witness :
  let granted := Response undefined undefined (VArr []) undefined in
  let locked := VObj [("code", VScalar (SNum (-32603)))] in
  let refused := Response undefined undefined undefined locked in
  let w := engine_completes 0 0 null refused
             (engine_completes 0 0 null granted
                (snd (prototype.enable 0 empty_object loaded))) in
  promise_state 0 w = Rejected locked ∧ isEnabled (module_flags w) = true.
Proof.
  intros granted locked refused w.
  destruct (enable_takes_the_outcome_of_getAccounts 0 empty_object null granted
              null refused loaded eq_refl eq_refl) as (_ & _ & P & F & _).
  split; [exact P | exact F].
Defined.

Lemma isApproved_callback_fetch i pr err res w :
  truthy err = false →
  truthy (error res) && has_code (error res) 5 = false →
  isApproved_callback i pr err res w
  = then_catch (fst (prototype.getAccounts i w)) pr (snd (prototype.getAccounts i w)).
Proof.
  intros He H5. unfold isApproved_callback. rewrite He, H5.
  by destruct (prototype.getAccounts i w).
Qed.

(** X12: the callback of isApproved() rejects the promise with the error
    of the engine, or with a response error of code 5; on any other
    response, an error other than code 5 included, it asks for the accounts
    and the promise takes the outcome of getAccounts.  It never writes a
    module flag. *)
Theorem isApproved_callback_outcome i err res err' res' w :
  let pr := fst (new_promise w) in
  let w1 := isApproved_callback i pr err res (snd (new_promise w)) in
  let w2 := engine_completes i (length (rpcEngine (instance i w))) err' res' w1 in
  let refused := truthy err || (truthy (error res) && has_code (error res) 5) in
  promise_state pr w1
  = (if truthy err then Rejected err
     else if truthy (error res) && has_code (error res) 5 then Rejected (error res)
     else Pending)
  ∧ module_flags w1 = module_flags w
  ∧ rpcEngine (instance i w1)
    = rpcEngine (instance i w)
      ++ (if refused then []
          else [(Payload undefined undefined (Some "eth_accounts") (VArr []),
                 getAccounts_cb (S pr))])
  ∧ (if refused then True
     else promise_state pr w2 = getAccounts_outcome err' res'
          ∧ module_flags w2 = module_flags w).
Proof.
  intros pr w1 w2 refused.
  set (w0 := snd (new_promise w)) in *.
  assert (Hpr : promises w0 !! pr = Some (MkPromise Pending None))
    by (by apply list_lookup_middle).
  subst refused w2 w1.
  destruct (truthy err) eqn:He.
  { unfold isApproved_callback. rewrite He. simpl.
    unfold reject. rewrite settle_pending by exact Hpr.
    destruct (settle_quiet pr (Rejected err) w0) as [_ ->].
    rewrite settle_instance, app_nil_r. done. }
  destruct (truthy (error res) && has_code (error res) 5) eqn:H5.
  { unfold isApproved_callback. rewrite He, H5. simpl.
    unfold reject. rewrite settle_pending by exact Hpr.
    destruct (settle_quiet pr (Rejected (error res)) w0) as [_ ->].
    rewrite settle_instance, app_nil_r. done. }
  rewrite (isApproved_callback_fetch i pr err res w0 He H5).
  destruct (accounts_for_promise i pr err' res' w0 Hpr)
    as (Q1 & P1 & F1 & P2 & _ & F2).
  assert (Hq : fst (prototype.getAccounts i w0) = S pr).
  { change (fst (prototype.getAccounts i w0)) with (length (promises w0)).
    subst w0 pr. simpl. rewrite length_app. simpl. lia. }
  simpl orb. cbv iota.
  split; [exact P1|]. split; [exact F1|]. split; [by rewrite Q1, Hq|].
  split; [exact P2 | exact F2].
Qed.

Lemma isApproved_callback_outcome_witness :
  let other := VObj [("code", VScalar (SNum 4001)); ("message", VScalar (SStr "no"))] in
  let res := Response undefined undefined undefined other in
  let accounts := Response undefined undefined (VArr [VScalar (SStr "0xabc")]) undefined in
  promise_state 0
    (engine_completes 0 0 null accounts
       (isApproved_callback 0 0 null res (snd (new_promise loaded))))
  = Resolved (VArr [VScalar (SStr "0xabc")]).
Proof.
  intros other res accounts.
  destruct (isApproved_callback_outcome 0 null res null accounts loaded)
    as (_ & _ & _ & H).
  exact (proj1 H).
Defined.

(** ** The callback that comes with eth_requestAccounts *)

Lemma callback_unused_transfer k w w' :
  (∀ j, instance j w' = instance j w) →
  called_back w' = called_back w →
  callback_unused k w → callback_unused k w'.
Proof.
  intros Hi Hc [Hp Hr]. split; [|by rewrite Hc].
  intros j p. rewrite Hi. apply Hp.
Qed.

Lemma callback_unused_engines k w w' :
  (∀ j, rpcEngine (instance j w') = rpcEngine (instance j w))
  ∧ called_back w' = called_back w →
  callback_unused k w → callback_unused k w'.
Proof.
  intros [Hi Hc] [Hp Hr]. split; [|by rewrite Hc].
  intros j p. rewrite Hi. apply Hp.
Qed.

Lemma snapshot_arrives_rpcEngine i j state w :
  rpcEngine (instance j (snapshot_arrives i state w)) = rpcEngine (instance j w).
Proof.
  destruct (decide (i = j)) as [->|Hne].
  - unfold snapshot_arrives, subscribe_handler.
    repeat case_match; instance_simpl; reflexivity.
  - by rewrite snapshot_arrives_other.
Qed.

Lemma callback_unused_update k i f w :
  (∀ self x, x ∈ rpcEngine (f self) → x ∈ rpcEngine self ∨ snd x ≠ app_cb k) →
  callback_unused k w → callback_unused k (update_instance i f w).
Proof.
  intros Hf [Hp Hr]. split; [|exact Hr].
  intros j p Hin. destruct (decide (i = j)) as [->|Hne].
  - rewrite instance_update_same in Hin.
    destruct (Hf _ _ Hin) as [H|H]; [by apply (Hp j p) | by apply H].
  - rewrite instance_update_other in Hin by exact Hne. by apply (Hp j p).
Qed.

Lemma callback_unused_handle k i p cb w :
  cb ≠ app_cb k →
  callback_unused k w → callback_unused k (rpcEngine_handle i p cb w).
Proof.
  intros Hcb. apply callback_unused_update. intros self x Hin. simpl in Hin.
  apply elem_of_app in Hin as [Hin|Hin]; [by left|].
  apply list_elem_of_singleton in Hin. subst. by right.
Qed.

Lemma settle_one_called_back pr s w : called_back (settle_one pr s w) = called_back w.
Proof. unfold settle_one. by repeat case_match. Qed.

Lemma settle_called_back pr s w : called_back (settle pr s w) = called_back w.
Proof.
  unfold settle. repeat case_match; rewrite ?settle_one_called_back; done.
Qed.

Lemma callback_unused_settle k pr s w :
  callback_unused k w → callback_unused k (settle pr s w).
Proof.
  apply callback_unused_transfer; [|apply settle_called_back].
  intros j. apply settle_instance.
Qed.

Lemma callback_unused_then_catch k q pr w :
  callback_unused k w → callback_unused k (then_catch q pr w).
Proof.
  apply callback_unused_transfer.
  - intros j. apply then_catch_instance.
  - unfold then_catch. by repeat case_match.
Qed.

Lemma callback_unused_enable k i opts w :
  callback_unused k w → callback_unused k (snd (prototype.enable i opts w)).
Proof.
  intros H. unfold prototype.enable, new_promise. simpl.
  apply callback_unused_handle; [done|].
  by apply (callback_unused_transfer k w).
Qed.

Lemma runs_of_snoc k k' err res l :
  k' ≠ k → runs_of k (l ++ [(k', err, res)]) = runs_of k l.
Proof.
  intros Hne. unfold runs_of. rewrite omap_app. simpl.
  destruct (Nat.eqb_spec k' k); [done|]. by rewrite app_nil_r.
Qed.

Lemma callback_unused_run_callback k i cb err res w :
  cb ≠ app_cb k →
  callback_unused k w → callback_unused k (run_callback i cb err res w).
Proof.
  intros Hcb H. destruct cb as [| pr | pr | k']; simpl.
  - exact H.
  - unfold reject.
    destruct (truthy err); [by apply callback_unused_settle|].
    destruct (truthy (error res) && has_code (error res) 5);
      [by apply callback_unused_settle|].
    destruct (truthy (error res)); [by apply callback_unused_settle|].
    apply callback_unused_then_catch, callback_unused_handle; [done|].
    by apply (callback_unused_transfer k w).
  - unfold reject, resolve. apply callback_unused_settle.
    destruct (truthy (error res)); [apply callback_unused_settle|];
      (destruct (truthy err); [by apply callback_unused_settle | exact H]).
  - destruct H as [Hp Hr]. split; [exact Hp|].
    simpl. rewrite runs_of_snoc; [exact Hr | congruence].
Qed.

Lemma callback_unused_emit_data k i error arg w :
  callback_unused k w → callback_unused k (prototype.emit_data i error arg w).
Proof.
  apply callback_unused_transfer.
  - intros j. apply emit_data_instance.
  - unfold prototype.emit_data.
    induction (data_relays (instance i w)) as [|n IH]; [reflexivity|].
    simpl. unfold prototype.relay at 1. by repeat case_match.
Qed.

Lemma callback_unused_step parse k x w :
  only_with_requestAccounts k x →
  callback_unused k w → callback_unused k (step parse x w).
Proof.
  intros Hx H.
  destruct x as [i state | i label err | i k0 err res | i message | i opts
                | i p k' | i p | i | i]; simpl.
  - apply (callback_unused_engines k w); [|exact H].
    split; [intros j; apply snapshot_arrives_rpcEngine|].
    unfold snapshot_arrives, subscribe_handler. by repeat case_match.
  - unfold logStreamDisconnectWarning.
    repeat case_match; by apply (callback_unused_transfer k w).
  - unfold engine_completes.
    destruct (rpcEngine (instance i w) !! k0) as [[p cb]|] eqn:E; [|exact H].
    apply callback_unused_run_callback.
    + intros ->. destruct H as [Hp _]. apply (Hp i p).
      by eapply list_elem_of_lookup_2.
    + apply callback_unused_update; [|exact H].
      intros self x Hin. left. simpl in Hin.
      eapply elem_of_sublist; [exact Hin | apply sublist_delete].
  - unfold prototype.receive. repeat case_match; try exact H.
    by apply callback_unused_emit_data.
  - by apply callback_unused_enable.
  - unfold prototype.sendAsync.
    destruct (method_is p "eth_requestAccounts") eqn:Hm.
    + pose proof (callback_unused_enable k i empty_object w H) as He.
      by destruct (prototype.enable i empty_object w).
    + simpl. apply callback_unused_handle; [|exact H].
      intros [= ->]. simpl in Hx. rewrite Hx in Hm by reflexivity. discriminate.
  - unfold prototype._sendSync, prototype.sendAsync.
    pose proof (callback_unused_enable k i empty_object w H) as He.
    destruct (prototype.enable i empty_object w).
    repeat case_match; simpl; try exact H; try exact He.
    by apply callback_unused_handle.
  - unfold prototype._subscribe. apply callback_unused_update; [|exact H].
    intros self x Hin. by left.
  - unfold on_error. apply callback_unused_update; [|exact H].
    intros self x Hin. by left.
Qed.

(** X14: sendAsync drops the callback that comes with eth_requestAccounts.
    In every run from the loading of the module in which an application
    callback is only ever passed together with that method, the callback is
    never run and never waits with a pending call; the call that reaches
    the engine is the wallet_requestPermissions of enable(), without the id
    or the params of the payload, and sendAsync returns the promise of
    enable(). *)
Theorem requestAccounts_callback_is_dropped parse l k :
  Forall (only_with_requestAccounts k) l →
  callback_unused k (run parse l loaded)
  ∧ (∀ i p w,
       method_is p "eth_requestAccounts" = true →
       fst (prototype.sendAsync i p (app_cb k) w) = Some (length (promises w))
       ∧ rpcEngine (instance i (snd (prototype.sendAsync i p (app_cb k) w)))
         = rpcEngine (instance i w)
           ++ [(Payload undefined undefined (Some "wallet_requestPermissions")
                        (VArr [VObj [("eth_accounts", VObj [])]]),
                enable_cb (length (promises w)))]).
Proof.
  intros Hl. split.
  - assert (H : ∀ w, callback_unused k w → callback_unused k (run parse l w)).
    { induction l as [|x l IH]; intros w Hw; [exact Hw|].
      inversion Hl as [|? ? Hx Hl']; subst.
      rewrite run_cons. apply IH; [exact Hl'|].
      by apply callback_unused_step. }
    apply H. split; [|reflexivity].
    intros j p Hin. by apply elem_of_nil in Hin.
  - intros i p w Hm. unfold prototype.sendAsync. rewrite Hm.
    pose proof (enable_request i empty_object w) as E.
    destruct (prototype.enable i empty_object w) as [pr w1] eqn:Ee.
    split; [|exact E].
    unfold prototype.enable, new_promise in Ee. simpl in Ee. by injection Ee as <- _.
Qed.

Lemma requestAccounts_callback_is_dropped_witness :
  let ask := Payload (VScalar (SNum 7)) (VScalar (SStr "2.0"))
                     (Some "eth_requestAccounts") (VArr []) in
  let granted := Response undefined undefined (VArr []) undefined in
  let accounts := Response undefined undefined (VArr [VScalar (SStr "0xabc")]) undefined in
  runs_of 3
    (called_back
       (run JSON_parse [CallSendAsync 0 ask 3; Answer 0 0 null granted;
                        Answer 0 0 null accounts] loaded))
  = [].
Proof.
  intros ask granted accounts.
  refine (proj2 (proj1 (requestAccounts_callback_is_dropped JSON_parse
                          [CallSendAsync 0 ask 3; Answer 0 0 null granted;
                           Answer 0 0 null accounts] 3 _))).
  repeat constructor.
Defined.

(** ** The listeners of _subscribe *)

Lemma relay_push i error arg params r w :
  get_prop arg "method" = Some (VScalar (SStr "eth_subscription")) →
  get_prop arg "params" = Some params →
  get_prop params "result" = Some r →
  prototype.relay i error arg w
  = if truthy error then w else emit (Provider i) "notification" [r] w.
Proof.
  intros Hm Hp Hr. unfold prototype.relay. rewrite Hm, Hp, Hr. simpl.
  by destruct (truthy error).
Qed.

Lemma relay_instance i j error arg w :
  instance j (prototype.relay i error arg w) = instance j w.
Proof. unfold prototype.relay. by repeat case_match. Qed.

(** X15: every call of _subscribe adds a listener, and none is ever
    removed or shared: when 'data' is emitted with no error and an
    eth_subscription object, the provider emits, after 'data', one
    'notification' with params.result for each call of _subscribe made
    before; with an error it emits 'data' alone. *)
Theorem one_notification_per_subscribe i n error arg params r w :
  get_prop arg "method" = Some (VScalar (SStr "eth_subscription")) →
  get_prop arg "params" = Some params →
  get_prop params "result" = Some r →
  let w' := Nat.iter n (prototype._subscribe i) w in
  data_relays (instance i w') = n + data_relays (instance i w)
  ∧ emitted (prototype.emit_data i error arg w')
    = emitted w
      ++ Emit (Provider i) "data" [error; arg]
         :: (if truthy error then []
             else replicate (n + data_relays (instance i w))
                            (Emit (Provider i) "notification" [r])).
Proof.
  intros Hm Hp Hr w'.
  assert (Hn : data_relays (instance i w') = n + data_relays (instance i w)).
  { subst w'. induction n as [|n IH]; [reflexivity|].
    simpl. unfold prototype._subscribe at 1.
    rewrite instance_update_same. simpl. by rewrite IH. }
  assert (He : emitted w' = emitted w).
  { subst w'. clear Hn. induction n as [|n IH]; [reflexivity|]. exact IH. }
  split; [exact Hn|].
  unfold prototype.emit_data. rewrite Hn. clear Hn.
  generalize (n + data_relays (instance i w)). intros m.
  induction m as [|m IH].
  - simpl. rewrite He. by destruct (truthy error).
  - simpl. rewrite (relay_push i error arg params r _ Hm Hp Hr).
    destruct (truthy error); [exact IH|].
    change (emitted (emit (Provider i) "notification" [r]
                      (Nat.iter m (prototype.relay i error arg)
                         (emit (Provider i) "data" [error; arg] w'))))
      with (emitted (Nat.iter m (prototype.relay i error arg)
                       (emit (Provider i) "data" [error; arg] w'))
            ++ [Emit (Provider i) "notification" [r]]).
    rewrite IH, <- app_assoc. simpl. by rewrite <- replicate_cons_app.
Qed.

Lemma one_notification_per_subscribe_witness :
  let push := VObj [("method", VScalar (SStr "eth_subscription"));
                    ("params", VObj [("result", VScalar (SStr "0xabc"))])] in
  emitted (prototype.emit_data 0 null push
             (Nat.iter 2 (prototype._subscribe 0) loaded))
  = [Emit (Provider 0) "data" [null; push];
     Emit (Provider 0) "notification" [VScalar (SStr "0xabc")];
     Emit (Provider 0) "notification" [VScalar (SStr "0xabc")]].
Proof.
  intros push.
  exact (proj2 (one_notification_per_subscribe 0 2 null push
                  (VObj [("result", VScalar (SStr "0xabc"))])
                  (VScalar (SStr "0xabc")) loaded eq_refl eq_refl eq_refl)).
Defined.

(** ** What receive lets through *)

Lemma is_string_truthy m :
  is_string m "eth_subscription" = true → truthy m = true.
Proof.
  destruct m as [[| | | |s]| |]; simpl; try discriminate.
  intros H. apply String.eqb_eq in H. by subst.
Qed.

(** X16: receive swallows a message that JSON.parse rejects, or whose
    parsed value has no method 'eth_subscription' (null included): nothing
    is emitted and the state is as before.  For any other message the one
    thing it does is emit 'data' with null and the raw text, however many
    listeners _subscribe has installed. *)
Theorem receive_swallows_or_relays parse i message w :
  prototype.receive parse i message w
  = if is_push parse message
    then emit (Provider i) "data" [null; VScalar (SStr message)] w
    else w.
Proof.
  unfold prototype.receive, is_push.
  destruct (parse message) as [data|]; [|reflexivity].
  destruct (get_prop data "method") as [m|]; [|reflexivity].
  destruct (is_string m "eth_subscription") eqn:E.
  - rewrite (is_string_truthy m E). simpl. apply emit_data_text.
  - by rewrite andb_false_r.
Qed.

(** ** Who enables *)

Lemma step_isEnabled parse x w :
  is_answer x = false →
  isEnabled (module_flags (step parse x w)) = isEnabled (module_flags w).
Proof.
  destruct x as [i state | i label err | i k err res | i message | i opts
                | i p k | i p | i | i]; simpl; intros Hx; try discriminate.
  - unfold snapshot_arrives. by rewrite subscribe_handler_isEnabled.
  - unfold logStreamDisconnectWarning. by repeat case_match.
  - by rewrite receive_flags.
  - reflexivity.
  - by destruct (sendAsync_quiet i p (app_cb k) w) as [_ ->].
  - by destruct (_sendSync_quiet i p w) as [_ ->].
  - reflexivity.
  - reflexivity.
Qed.

(** X17: isEnabled() becomes true only when the engine answers: in every
    run from the loading of the module without an answer of the engine,
    whatever is called (enable() included) and whatever snapshots arrive or
    streams end, isEnabled() is false on every provider. *)
Theorem nothing_enables_but_an_answer parse l j :
  forallb (fun x => negb (is_answer x)) l = true →
  prototype.isEnabled j (run parse l loaded) = false.
Proof.
  unfold prototype.isEnabled.
  assert (H : ∀ w, forallb (fun x => negb (is_answer x)) l = true →
                   isEnabled (module_flags (run parse l w)) = isEnabled (module_flags w)).
  { induction l as [|x l IH]; intros w Hl; [reflexivity|].
    simpl in Hl. apply andb_prop in Hl as [Hx Hl].
    rewrite run_cons, IH by exact Hl.
    apply step_isEnabled. by destruct (is_answer x). }
  intros Hl. by rewrite H.
Qed.

Lemma nothing_enables_but_an_answer_witness :
  prototype.isEnabled 1
    (run JSON_parse
       [CallEnable 0 empty_object;
        Snapshot 0 {[ "selectedAddress" := SStr "0xabc" ]};
        CallSendSync 1 (Payload undefined undefined (Some "eth_accounts") undefined);
        Disconnect 0 "MetaMask" None] loaded)
  = false.
Proof.
  apply (nothing_enables_but_an_answer JSON_parse _ 1). reflexivity.
Defined.

(** ** The two flags of the module *)

Lemma run_connected parse l w :
  isConnected (module_flags (run parse l w))
  = connected_after l (isConnected (module_flags w)).
Proof.
  revert w. induction l as [|x l IH]; intros w; [reflexivity|].
  rewrite run_cons, IH.
  destruct (step_effect parse x w) as (_ & _ & _ & K & _). rewrite K.
  unfold connected_after. simpl.
  destruct x; simpl; try reflexivity;
    by destruct (isConnected (module_flags w)).
Qed.

Lemma run_not_enabled parse l w :
  forallb (fun x => negb (is_answer x)) l = true →
  isEnabled (module_flags (run parse l w)) = isEnabled (module_flags w).
Proof.
  revert w. induction l as [|x l IH]; intros w Hl; [reflexivity|].
  simpl in Hl. apply andb_prop in Hl as [Hx Hl].
  rewrite run_cons, IH by exact Hl.
  apply step_isEnabled. by destruct (is_answer x).
Qed.

(** C10, against the claim as stated: provider 0 has received the first
    snapshot of the process and its stream ends; isConnected() is then
    false on provider 1, and the snapshot that next arrives at provider 1,
    the second of the process, emits 'connect' again. *)
Lemma disconnect_clears_the_shared_flag :
  ¬ connected_for_good JSON_parse 0 {[ "selectedAddress" := SStr "0xabc" ]}
      [Disconnect 0 "MetaMask" None]
  ∧ ¬ connected_for_good JSON_parse 0 {[ "selectedAddress" := SStr "0xabc" ]}
        [Disconnect 0 "MetaMask" None;
         Snapshot 1 {[ "selectedAddress" := SStr "0xabc" ]}].
Proof.
  split.
  - intros [H _]. specialize (H 1). vm_compute in H. discriminate.
  - intros [_ H]. vm_compute in H. discriminate.
Qed.

(** C10, amended: isEnabled() and isConnected() read the two flags of the
    module, the same for every provider, both false when the module is
    loaded.  isEnabled() stays false on every provider as long as the
    engine has answered nothing; once the enable() of provider i has
    succeeded it is true on every provider j, whatever happens next.
    isConnected() is true on every provider once a snapshot has arrived at
    any provider, and false on every provider once a stream of any provider
    has ended: after any run it tells which of the two came last.  A
    snapshot that arrives while the flag is set emits no 'connect'. *)
Theorem flags_are_module_state :
  (∀ i j w, prototype.isEnabled i w = prototype.isEnabled j w
            ∧ prototype.isConnected i w = prototype.isConnected j w)
  ∧ (∀ j, prototype.isEnabled j loaded = false
          ∧ prototype.isConnected j loaded = false)
  ∧ (∀ parse l j,
       forallb (fun x => negb (is_answer x)) l = true →
       prototype.isEnabled j (run parse l loaded) = false)
  ∧ (∀ parse i j opts err res err' res' w later,
       truthy err = false → truthy (error res) = false →
       truthy err' = false → truthy (error res') = false →
       let k := length (rpcEngine (instance i w)) in
       let granted := engine_completes i k err res (snd (prototype.enable i opts w)) in
       let enabled := engine_completes i k err' res' granted in
       promise_state (fst (prototype.enable i opts w)) enabled = Resolved (result res')
       ∧ prototype.isEnabled j granted = true
       ∧ prototype.isEnabled j (run parse later enabled) = true)
  ∧ (∀ i j state w, prototype.isConnected j (snapshot_arrives i state w) = true)
  ∧ (∀ i j remoteLabel err w,
       prototype.isConnected j (logStreamDisconnectWarning i remoteLabel err w) = false)
  ∧ (∀ parse l j,
       prototype.isConnected j (run parse l loaded) = connected_after l false)
  ∧ (∀ i state w,
       isConnected (module_flags w) = true →
       count_named "connect" (emitted_since w (snapshot_arrives i state w)) = 0).
Proof.
  split; [|split; [|split; [|split; [|split; [|split; [|split]]]]]].
  - intros i j w. split; reflexivity.
  - intros j. split; reflexivity.
  - intros parse l j Hl. unfold prototype.isEnabled.
    by rewrite run_not_enabled.
  - intros parse i j opts err res err' res' w later He Hr He' Hr' k granted enabled.
    destruct (enable_succeeds i opts err res err' res' w He Hr He' Hr')
      as (F1 & F2 & P).
    unfold prototype.isEnabled. repeat split; [exact P | exact F1 |].
    by apply run_isEnabled.
  - intros i j state w. apply snapshot_arrives_isConnected.
  - intros i j remoteLabel err w.
    unfold prototype.isConnected, logStreamDisconnectWarning. by repeat case_match.
  - intros parse l j. unfold prototype.isConnected. by rewrite run_connected.
  - intros i state w Hflag.
    destruct (snapshot_arrives_connect i state w) as (evs & E & C).
    by rewrite (emitted_since_app _ _ _ E), C, Hflag.
Qed.

Lemma flags_are_module_state_witness :
  prototype.isEnabled 1
    (run JSON_parse
       [Snapshot 1 {[ "selectedAddress" := SStr "0xabc" ]};
        Disconnect 1 "MetaMask" None]
       (engine_completes 0 0 null
          (Response undefined undefined (VArr [VScalar (SStr "0xabc")]) undefined)
          (engine_completes 0 0 null
             (Response undefined undefined (VArr []) undefined)
             (snd (prototype.enable 0 empty_object loaded)))))
  = true
  ∧ prototype.isEnabled 1
      (run JSON_parse [CallEnable 0 empty_object;
                       Snapshot 1 {[ "selectedAddress" := SStr "0xabc" ]}] loaded)
    = false
  ∧ count_named "connect"
      (emitted_since
         (snapshot_arrives 0 {[ "selectedAddress" := SStr "0xabc" ]} loaded)
         (snapshot_arrives 1 {[ "selectedAddress" := SStr "0xabc" ]}
            (snapshot_arrives 0 {[ "selectedAddress" := SStr "0xabc" ]} loaded)))
    = 0.
Proof.
  destruct flags_are_module_state
    as (_ & _ & Hfalse & Henable & _ & _ & _ & Hconnect).
  split; [|split].
  - apply (Henable JSON_parse 0 1 empty_object null
             (Response undefined undefined (VArr []) undefined) null
             (Response undefined undefined (VArr [VScalar (SStr "0xabc")]) undefined)
             loaded); reflexivity.
  - apply (Hfalse JSON_parse _ 1). reflexivity.
  - apply (Hconnect 1 _ (snapshot_arrives 0 {[ "selectedAddress" := SStr "0xabc" ]} loaded)).
    reflexivity.
Defined.
